(** * CRAWL4AI_VALIDATOR: session store, agent client, attachment input and
    conversation controller.

    A shallow embedding of [src/services/sessionService.ts] and of the three
    units kept in [src/components/ChatInput.tsx] (the [ChatInput] component,
    the [App] controller and the [AgentRunner] service), with the properties
    of the specification stated and proved over it.

    Conventions.
    - JavaScript strings are [string]; only concatenation, equality and
      emptiness of strings are used by the code under study.
    - A JavaScript [Map<string, V>] is a [gmap string V].
    - A value that may be [undefined] or [null] is an [option].
    - Mutable arrays held in a [Map] live in an explicit heap, because
      [Array.prototype.push] mutates the array object in place. *)

From Stdlib Require Import String Ascii NArith Lia.
From stdpp Require Import base option list strings pretty gmap.

Local Open Scope string_scope.
Local Open Scope list_scope.

(* ===================================================================== *)
(** ** Data model ([types.ts]) *)
(* ===================================================================== *)

(** Modelled from the spec: the enum [MessageRole] of the absent [types.ts];
    its three members are the ones the sources name ([MessageRole.USER],
    [MessageRole.ASSISTANT], [MessageRole.SYSTEM]). *)
Inductive MessageRole := USER | ASSISTANT | SYSTEM.

#[global] Instance MessageRole_eq_dec : EqDecision MessageRole.
Proof. solve_decision. Defined.

(** The four values the sources assign to the [status] of the session
    state. *)
Inductive Status := idle | thinking | streaming | error.

#[global] Instance Status_eq_dec : EqDecision Status.
Proof. solve_decision. Defined.

Module Attachment.
(** Modelled from the spec: [Attachment] of the absent [types.ts], with
    the two fields the sources read and write.  [base64] is what
    [split(',')[1]] returned, which is [undefined] when the reader's
    result holds no comma. *)
Record t := {
  base64 : option string;
  mimeType : string
}.
End Attachment.

Module WebSource.
(** The [web] member of a grounding entry, as the provider sends it. *)
Record t := {
  uri : option string;
  title : option string
}.

#[global] Instance eq_dec : EqDecision t.
Proof. solve_decision. Defined.
End WebSource.

Module GroundingChunk.
(** Modelled from the spec: [GroundingChunk] of the absent [types.ts];
    the sources read [gc.web?.uri].  An entry of another kind than web
    has [web = None]. *)
Record t := {
  web : option WebSource.t
}.

#[global] Instance eq_dec : EqDecision t.
Proof. solve_decision. Defined.
End GroundingChunk.

Module Message.
(** Modelled from the spec: [Message] of the absent [types.ts], with the
    fields the controller writes. *)
Record t := {
  id : string;
  role : MessageRole;
  content : string;
  timestamp : N;
  attachment : option Attachment.t;
  groundingChunks : option (list GroundingChunk.t)
}.
End Message.

Module AgentResponse.
(** Modelled from the spec: [AgentResponse] of the absent [types.ts],
    the element type of the generator [call_agent_async]. *)
Record t := {
  text : string;
  groundingChunks : option (list GroundingChunk.t)
}.
End AgentResponse.

Module SessionState.
(** Modelled from the spec: [SessionState] of the absent [types.ts]. *)
Record t := {
  sessionId : string;
  messages : list Message.t;
  status : Status
}.
End SessionState.

(* ===================================================================== *)
(** ** [InMemorySessionService] ([src/services/sessionService.ts]) *)
(* ===================================================================== *)

Module SessionService.

(** A reference to a [Message[]] object: its index in the heap. *)
Definition ref := nat.

(** The service object: the private [sessions] map holds references, the
    heap [arrays] holds the arrays themselves.  Allocation appends to the
    heap, so a fresh reference is [length arrays]. *)
Record t := {
  arrays : list (list Message.t);
  sessions : gmap string ref
}.

(** [new InMemorySessionService()]: [sessions = new Map()]. *)
Definition empty : t := {| arrays := []; sessions := ∅ |}.

(** Allocation of an array literal [[]]. *)
Definition alloc (s : t) : ref * t :=
  (length (arrays s), {| arrays := arrays s ++ [[]]; sessions := sessions s |}).

(** Reading the contents of an array object. *)
Definition deref (s : t) (r : ref) : list Message.t :=
  default [] (arrays s !! r).

(** [createSession()], with the identifier that [crypto.randomUUID()]
    returned as an argument:
    [this.sessions.set(sessionId, []); return sessionId]. *)
Definition createSession (uuid : string) (s : t) : string * t :=
  let '(r, s1) := alloc s in
  (uuid, {| arrays := arrays s1; sessions := <[uuid := r]> (sessions s1) |}).

(** [getHistory(sessionId)]:
    [return this.sessions.get(sessionId) || []].
    An array object is always truthy, so the fresh [[]] is allocated
    exactly when the key is absent.  The result is a reference. *)
Definition getHistory (s : t) (sessionId : string) : ref * t :=
  match sessions s !! sessionId with
  | Some r => (r, s)
  | None => alloc s
  end.

(** [addMessage(sessionId, message)]:
    [const history = this.getHistory(sessionId);
     history.push(message);
     this.sessions.set(sessionId, history)]. *)
Definition addMessage (s : t) (sessionId : string) (message : Message.t) : t :=
  let '(history, s1) := getHistory s sessionId in
  let s2 := {| arrays := <[history := deref s1 history ++ [message]]> (arrays s1);
               sessions := sessions s1 |} in
  {| arrays := arrays s2; sessions := <[sessionId := history]> (sessions s2) |}.

(** [clearSession(sessionId)]: [this.sessions.delete(sessionId)]. *)
Definition clearSession (s : t) (sessionId : string) : t :=
  {| arrays := arrays s; sessions := delete sessionId (sessions s) |}.

(** What a caller of [getHistory] reads in the array it receives. *)
Definition history (s : t) (sessionId : string) : list Message.t :=
  let '(r, s1) := getHistory s sessionId in deref s1 r.

(** *** Notions used to state the properties *)

(** The calls a client can make that change the service. *)
Inductive Op :=
  | OpCreate (uuid : string)
  | OpAdd (sessionId : string) (message : Message.t)
  | OpClear (sessionId : string).

Definition step (s : t) (o : Op) : t :=
  match o with
  | OpCreate uuid => snd (createSession uuid s)
  | OpAdd sessionId message => addMessage s sessionId message
  | OpClear sessionId => clearSession s sessionId
  end.

Definition run (ops : list Op) (s : t) : t := fold_left step ops s.

(** The messages that a run of operations adds to one session. *)
Definition added (sessionId : string) (ops : list Op) : list Message.t :=
  flat_map (fun o => match o with
                     | OpAdd sid m => if decide (sid = sessionId) then [m] else []
                     | _ => []
                     end) ops.

(** An operation that discards what a session held: [createSession]
    with that identifier, or [clearSession]. *)
Definition resets (sessionId : string) (o : Op) : bool :=
  match o with
  | OpCreate uuid => bool_decide (uuid = sessionId)
  | OpAdd _ _ => false
  | OpClear sid => bool_decide (sid = sessionId)
  end.

(** Heap discipline of the service: every stored reference is allocated
    and no two identifiers hold the same array object. *)
Definition wf (s : t) : Prop :=
  map_Forall (fun _ r => r < length (arrays s)) (sessions s) ∧
  map_Forall (fun sid1 r1 =>
    map_Forall (fun sid2 r2 => r1 = r2 → sid1 = sid2) (sessions s))
    (sessions s).

#[global] Instance wf_dec (s : t) : Decision (wf s).
Proof. unfold wf. apply _. Defined.

End SessionService.

(* ===================================================================== *)
(** ** [ChatInput] (first unit of [src/components/ChatInput.tsx]) *)
(* ===================================================================== *)

Module ChatInput.

Definition MAX_FILE_SIZE_MB : N := 5.
Definition MAX_FILE_SIZE_BYTES : N := MAX_FILE_SIZE_MB * 1024 * 1024.

(** The part of a DOM [File] the handler reads: [file.size] (a byte
    count) and [file.type]. *)
Record File := {
  size : N;
  type : string
}.

(** The component's state: the two [useState] cells, what the two refs
    point at ([None] when [ref.current] is [null]) and the notices
    raised through [alert], oldest first.
    [fileInputRef] holds the [value] of the file-selection control and
    [textareaRef] the [style.height] of the text area. *)
Record State := {
  input : string;
  attachment : option Attachment.t;
  fileInputRef : option string;
  textareaRef : option string;
  alerts : list string
}.

(** [s.split(sep)] for a one-character separator. *)
Fixpoint split (sep : ascii) (s : string) : list string :=
  match s with
  | EmptyString => [EmptyString]
  | String c rest =>
      if Ascii.eqb c sep then EmptyString :: split sep rest
      else match split sep rest with
           | piece :: pieces => String c piece :: pieces
           | [] => [String c EmptyString]
           end
  end.

(** Whether a character occurs in a string. *)
Fixpoint occurs (c : ascii) (s : string) : bool :=
  match s with
  | EmptyString => false
  | String a rest => Ascii.eqb a c || occurs c rest
  end.

Section Handlers.

(** [String.prototype.trim], a built-in of the language. *)
Variable trim : string → string.

(** The [disabled] prop. *)
Variable disabled : bool.

(** Truthiness of a string: it is not empty. *)
Definition truthy (s : string) : bool := negb (String.eqb s "").

(** [handleSubmit]: the new state and the call of [onSend], if any.
    [[
      if ((input.trim() || attachment) && !disabled) {
        onSend(input.trim(), attachment || undefined);
        setInput(''); setAttachment(null);
        if (textareaRef.current) textareaRef.current.style.height = 'auto';
      }
    ]] *)
Definition handleSubmit (st : State)
  : State * option (string * option Attachment.t) :=
  if (truthy (trim (input st)) || bool_decide (is_Some (attachment st)))
       && negb disabled
  then ({| input := "";
           attachment := None;
           fileInputRef := fileInputRef st;
           textareaRef := (fun _ => "auto") <$> textareaRef st;
           alerts := alerts st |},
        Some (trim (input st), attachment st))
  else (st, None).

(** [handleKeyDown]: Enter without Shift submits. *)
Definition handleKeyDown (key : string) (shiftKey : bool) (st : State)
  : State * option (string * option Attachment.t) :=
  if String.eqb key "Enter" && negb shiftKey then handleSubmit st
  else (st, None).

End Handlers.

(** The notice of the size check; the template is
    [`Файл слишком большой. Максимальный размер: ${MAX_FILE_SIZE_MB}MB`]. *)
Definition too_large_notice : string :=
  "Файл слишком большой. Максимальный размер: "
    +:+ pretty MAX_FILE_SIZE_MB +:+ "MB".

(** [handleFileSelect], on the [files] of the event target: the new
    state and the file handed to [reader.readAsDataURL], if any.
    [[
      const file = e.target.files?.[0];
      if (!file) return;
      if (file.size > MAX_FILE_SIZE_BYTES) {
        alert(...);
        if (fileInputRef.current) fileInputRef.current.value = '';
        return;
      }
      ... reader.readAsDataURL(file);
    ]] *)
Definition handleFileSelect (files : option (list File)) (st : State)
  : State * option File :=
  match files ≫= head with
  | None => (st, None)
  | Some file =>
      if (MAX_FILE_SIZE_BYTES <? size file)%N
      then ({| input := input st;
               attachment := attachment st;
               fileInputRef := (fun _ => "") <$> fileInputRef st;
               textareaRef := textareaRef st;
               alerts := alerts st ++ [too_large_notice] |},
            None)
      else (st, Some file)
  end.

(** The [onloadend] callback of the reader started for [file], on the
    reader's [result]; [None] is the [TypeError] of [null.split].
    [[
      const base64Content = base64String.split(',')[1];
      setAttachment({ base64: base64Content, mimeType: file.type });
    ]] *)
Definition onloadend (file : File) (result : option string) (st : State)
  : option State :=
  base64String ← result;
  let base64Content := split "," base64String !! 1 in
  Some {| input := input st;
          attachment := Some {| Attachment.base64 := base64Content;
                                Attachment.mimeType := type file |};
          fileInputRef := fileInputRef st;
          textareaRef := textareaRef st;
          alerts := alerts st |}.

(** [removeAttachment]. *)
Definition removeAttachment (st : State) : State :=
  {| input := input st;
     attachment := None;
     fileInputRef := (fun _ => "") <$> fileInputRef st;
     textareaRef := textareaRef st;
     alerts := alerts st |}.

(** *** Notions used to state the properties *)

(** The [result] of a reader after [readAsDataURL] succeeded:
    [data:<mime>;base64,<payload>]. *)
Definition data_url (mime payload : string) : string :=
  ("data:" +:+ mime +:+ ";base64") +:+ String "," payload.

End ChatInput.

(* ===================================================================== *)
(** ** The provider interface ([@google/genai]) *)
(* ===================================================================== *)

Module Provider.

(** The shape of a streamed [GenerateContentResponse] that the agent
    client reads: the [text] getter and
    [candidates?.[0]?.groundingMetadata?.groundingChunks]. *)
Record GroundingMetadata := {
  groundingChunks : option (list GroundingChunk.t)
}.

Record Candidate := {
  groundingMetadata : option GroundingMetadata
}.

Record GenerateContentResponse := {
  text : option string;
  candidates : option (list Candidate)
}.

(** One member of a structured message. *)
Inductive Part :=
  | TextPart (text : string)
  | InlineData (mimeType : string) (data : option string).

(** [string | Array<string | Part>]. *)
Inductive MessageContent :=
  | Plain (message : string)
  | Parts (parts : list Part).

Inductive Tool := googleSearch.

(** A [Chat] object: its identity (the rank of the [chats.create] call
    that made it) and the configuration it was made with. *)
Record Chat := {
  chat_uid : nat;
  model : string;
  thinkingBudget : N;
  systemInstruction : string;
  tools : list Tool
}.

#[global] Instance Tool_eq_dec : EqDecision Tool.
Proof. solve_decision. Defined.

#[global] Instance Chat_eq_dec : EqDecision Chat.
Proof. solve_decision. Defined.

(** The [GoogleGenAI] client, seen through the calls made on it: how
    many chats were created, and every message handed to
    [sendMessageStream] with the chat it was sent on, oldest first. *)
Record Client := {
  created : nat;
  sent : list (nat * MessageContent)
}.

(** How a streamed reply ends. *)
Inductive StreamEnd := Completed | Failed.

(** What the provider does with one message: [sendMessageStream]
    rejects, or it resolves to a stream that delivers [chunks] and then
    ends or fails. *)
Inductive Reply :=
  | SendThrows
  | Streams (chunks : list GenerateContentResponse) (ending : StreamEnd).

End Provider.

(* ===================================================================== *)
(** ** [AgentRunner] (third unit of [src/components/ChatInput.tsx]) *)
(* ===================================================================== *)

Module AgentRunner.
Import Provider.

Definition MODEL_NAME : string := "gemini-2.5-flash".

(** The service object: [client] and the handle cache [chatSessions]. *)
Record t := {
  client : Client;
  chatSessions : gmap string Chat
}.

(** [new AgentRunner()]. *)
Definition init : t :=
  {| client := {| created := 0; sent := [] |}; chatSessions := ∅ |}.

Section WithInstruction.

(** The text of [systemInstruction], a constant of the source. *)
Variable SYSTEM_INSTRUCTION : string.

(** [this.client.chats.create({ model, config })]. *)
Definition chats_create (c : Client) : Chat * Client :=
  ({| chat_uid := created c;
      model := MODEL_NAME;
      thinkingBudget := 4096;
      systemInstruction := SYSTEM_INSTRUCTION;
      tools := [googleSearch] |},
   {| created := S (created c); sent := sent c |}).

(** [getOrCreateChat(sessionId)]:
    [[
      if (!this.chatSessions.has(sessionId)) {
        const chat = this.client.chats.create({...});
        this.chatSessions.set(sessionId, chat);
      }
      return this.chatSessions.get(sessionId)!;
    ]] *)
Definition getOrCreateChat (r : t) (sessionId : string) : Chat * t :=
  match chatSessions r !! sessionId with
  | Some chat => (chat, r)
  | None =>
      let '(chat, c) := chats_create (client r) in
      (chat, {| client := c;
                chatSessions := <[sessionId := chat]> (chatSessions r) |})
  end.

(** [resetSession(sessionId)]: [this.chatSessions.delete(sessionId)]. *)
Definition resetSession (r : t) (sessionId : string) : t :=
  {| client := client r;
     chatSessions := delete sessionId (chatSessions r) |}.

(** The message of a turn. *)
Definition messageContent (userInput : string)
    (attachment : option Attachment.t) : MessageContent :=
  match attachment with
  | Some a =>
      Parts [ TextPart (if String.eqb userInput ""
                        then "Проанализируй этот документ/изображение."
                        else userInput);
              InlineData (Attachment.mimeType a) (Attachment.base64 a) ]
  | None => Plain userInput
  end.

(** The two local variables of the generator. *)
Record Acc := {
  accumulatedText : string;
  groundingChunks : list GroundingChunk.t
}.

Definition acc0 : Acc := {| accumulatedText := ""; groundingChunks := [] |}.

(** [gc.web?.uri]. *)
Definition web_uri (gc : GroundingChunk.t) : option string :=
  GroundingChunk.web gc ≫= WebSource.uri.

(** One turn of the [forEach]:
    [[
      const exists = groundingChunks.some(gc => gc.web?.uri === wc.web?.uri);
      if (!exists) groundingChunks.push(wc);
    ]] *)
Definition push_new (groundingChunks : list GroundingChunk.t)
    (wc : GroundingChunk.t) : list GroundingChunk.t :=
  if existsb (fun gc => bool_decide (web_uri gc = web_uri wc)) groundingChunks
  then groundingChunks
  else groundingChunks ++ [wc].

(** [responseChunk.candidates?.[0]?.groundingMetadata]. *)
Definition metadata (responseChunk : GenerateContentResponse)
  : option GroundingMetadata :=
  cs ← candidates responseChunk; c ← head cs; groundingMetadata c.

(** [metadata.groundingChunks.filter(c => !!c.web)], empty when the
    guard [metadata?.groundingChunks] fails. *)
Definition webChunks (responseChunk : GenerateContentResponse)
  : list GroundingChunk.t :=
  match metadata responseChunk ≫= Provider.groundingChunks with
  | Some gcs => filter (fun c => is_Some (GroundingChunk.web c)) gcs
  | None => []
  end.

(** The body of the [for await] up to the [yield]. *)
Definition consume (acc : Acc) (responseChunk : GenerateContentResponse)
  : Acc :=
  {| accumulatedText :=
       accumulatedText acc +:+ default "" (text responseChunk);
     groundingChunks :=
       fold_left push_new (webChunks responseChunk) (groundingChunks acc) |}.

(** The yielded object.  Its [groundingChunks] refers to the generator's
    own array, which later chunks extend by [push]; what is recorded here
    is the contents of the array when the object is yielded.  That is what
    the consumer of this repository reads: it shows the field before the
    generator runs again, and the array does not change after the last
    yield. *)
Definition snapshot (acc : Acc) : AgentResponse.t :=
  {| AgentResponse.text := accumulatedText acc;
     AgentResponse.groundingChunks :=
       if (0 <? length (groundingChunks acc))%nat
       then Some (groundingChunks acc) else None |}.

(** The objects yielded while the stream delivers [chunks]. *)
Fixpoint yields (acc : Acc) (chunks : list GenerateContentResponse)
  : list AgentResponse.t :=
  match chunks with
  | [] => []
  | responseChunk :: rest =>
      let acc' := consume acc responseChunk in
      snapshot acc' :: yields acc' rest
  end.

(** [call_agent_async(sessionId, userInput, attachment)], run to its
    end against the provider's [reply]: the service afterwards, the
    objects yielded in order, and whether the generator returned or
    threw (its [catch] logs and rethrows). *)
Definition call_agent_async (r : t) (sessionId userInput : string)
    (attachment : option Attachment.t) (reply : Reply)
  : t * list AgentResponse.t * StreamEnd :=
  let '(chat, r1) := getOrCreateChat r sessionId in
  let r2 := {| client :=
                 {| created := created (client r1);
                    sent := sent (client r1) ++
                            [(chat_uid chat, messageContent userInput attachment)] |};
               chatSessions := chatSessions r1 |} in
  match reply with
  | SendThrows => (r2, [], Failed)
  | Streams chunks ending => (r2, yields acc0 chunks, ending)
  end.

End WithInstruction.

(** *** Notions used to state the properties *)

(** The chunks a reply delivers before it ends. *)
Definition delivered (reply : Reply) : list GenerateContentResponse :=
  match reply with
  | SendThrows => []
  | Streams chunks _ => chunks
  end.

(** How a reply ends; a send that throws is a failure. *)
Definition ending (reply : Reply) : StreamEnd :=
  match reply with
  | SendThrows => Failed
  | Streams _ e => e
  end.

(** [responseChunk.text || ""]. *)
Definition chunk_text (responseChunk : GenerateContentResponse) : string :=
  default "" (text responseChunk).

(** The concatenation of a list of strings. *)
Definition joined (l : list string) : string := foldr String.append "" l.

(** Every web entry that a stream delivers, in the order of arrival. *)
Definition arrived (chunks : list GenerateContentResponse)
  : list GroundingChunk.t :=
  concat (webChunks <$> chunks).

(** The first entry of a list whose [web.uri] is [u]. *)
Definition first_with_uri (u : string) (l : list GroundingChunk.t)
  : option GroundingChunk.t :=
  List.find (fun gc => bool_decide (web_uri gc = Some u)) l.

(** A sequence of strings that grows strictly by concatenation: each
    element is the one before it followed by a non-empty string. *)
Definition strictly_growing (l : list string) : Prop :=
  ∀ i a b, l !! i = Some a → l !! S i = Some b →
         ∃ d, d ≠ "" ∧ b = a +:+ d.

(** Discipline of the handle cache: every cached handle was made by the
    client, and no two identifiers hold the same handle. *)
Definition wf (r : t) : Prop :=
  map_Forall (fun _ chat => chat_uid chat < created (client r)) (chatSessions r) ∧
  map_Forall (fun sid1 chat1 =>
  map_Forall (fun sid2 chat2 => chat_uid chat1 = chat_uid chat2 → sid1 = sid2)
    (chatSessions r))
  (chatSessions r).

#[global] Instance wf_dec (r : t) : Decision (wf r).
Proof. unfold wf. apply _. Defined.

(** Discipline of the send log: every message was sent on a chat that the
    client made. *)
Definition sent_wf (r : t) : Prop :=
  Forall (fun entry => entry.1 < created (client r)) (sent (client r)).

#[global] Instance sent_wf_dec (r : t) : Decision (sent_wf r).
Proof. unfold sent_wf. apply _. Defined.

(** The chats on which messages were sent. *)
Definition chats_used (r : t) : list nat := (sent (client r)).*1.

End AgentRunner.

(* ===================================================================== *)
(** ** [App] (second unit of [src/components/ChatInput.tsx]) *)
(* ===================================================================== *)

Module App.
Import Provider.

(** What a turn reads and writes: the React state cell [sessionState],
    the two service singletons, and [rendered], every value that
    [setSessionState] gave to the cell, oldest first.  Updater functions
    are applied in the order of their [setSessionState] calls. *)
Record World := {
  sessionState : SessionState.t;
  rendered : list SessionState.t;
  sessionService : SessionService.t;
  agentRunner : AgentRunner.t
}.

(** The results of the [uuidv4()] and [Date.now()] calls of one turn. *)
Record Fresh := {
  userMsg_id : string;
  userMsg_timestamp : N;
  assistantMsgId : string;
  assistantMsg_timestamp : N;
  errorMsg_id : string;
  errorMsg_timestamp : N
}.

Definition ERROR_TEXT : string :=
  "**[SYSTEM ERROR]** Ошибка обработки запроса или файла.".

(** [setSessionState(updater)]; [None] when the updater throws. *)
Definition setSessionState
    (updater : SessionState.t → option SessionState.t) (w : World)
  : option World :=
  next ← updater (sessionState w);
  Some {| sessionState := next;
          rendered := rendered w ++ [next];
          sessionService := sessionService w;
          agentRunner := agentRunner w |}.

(** [prev => ({ ...prev, status })]. *)
Definition with_status (s : Status) (prev : SessionState.t)
  : option SessionState.t :=
  Some {| SessionState.sessionId := SessionState.sessionId prev;
          SessionState.messages := SessionState.messages prev;
          SessionState.status := s |}.

(** [prev => ({ ...prev, messages: [...prev.messages, msg], status })]. *)
Definition with_message (msg : Message.t) (s : Status)
    (prev : SessionState.t) : option SessionState.t :=
  Some {| SessionState.sessionId := SessionState.sessionId prev;
          SessionState.messages := SessionState.messages prev ++ [msg];
          SessionState.status := s |}.

(** The updater of the loop body; [None] is the [TypeError] of reading
    [role] of [undefined] when there is no last message.
    [[
      const msgs = [...prev.messages];
      const lastMsg = msgs[msgs.length - 1];
      if (lastMsg.role === MessageRole.USER) {
        return { ...prev, messages: [...msgs, currentAssistantMsg] };
      } else {
        msgs[msgs.length - 1] = currentAssistantMsg;
        return { ...prev, messages: msgs };
      }
    ]] *)
Definition splice (currentAssistantMsg : Message.t) (prev : SessionState.t)
  : option SessionState.t :=
  let msgs := SessionState.messages prev in
  lastMsg ← last msgs;
  Some {| SessionState.sessionId := SessionState.sessionId prev;
          SessionState.messages :=
            if decide (Message.role lastMsg = USER)
            then msgs ++ [currentAssistantMsg]
            else <[length msgs - 1 := currentAssistantMsg]> msgs;
          SessionState.status := SessionState.status prev |}.

(** The variables the [for await] loop carries. *)
Record Loop := {
  currentAssistantMsg : Message.t;
  isFirstChunk : bool;
  world : World
}.

(** [{ ...currentAssistantMsg, content: chunk.text,
       groundingChunks: chunk.groundingChunks }]. *)
Definition with_chunk (msg : Message.t) (chunk : AgentResponse.t) : Message.t :=
  {| Message.id := Message.id msg;
   Message.role := Message.role msg;
   Message.content := AgentResponse.text chunk;
   Message.timestamp := Message.timestamp msg;
   Message.attachment := Message.attachment msg;
   Message.groundingChunks := AgentResponse.groundingChunks chunk |}.

(** One run of the loop body on a yielded [chunk]. *)
Definition loop_body (chunk : AgentResponse.t) (l : Loop) : option Loop :=
  w1 ← (if isFirstChunk l
      then setSessionState (with_status streaming) (world l)
      else Some (world l));
  let current := with_chunk (currentAssistantMsg l) chunk in
  w2 ← setSessionState (splice current) w1;
  Some {| currentAssistantMsg := current; isFirstChunk := false; world := w2 |}.

(** [for await (const chunk of stream) { ... }] over the yielded
    objects. *)
Fixpoint for_await (stream : list AgentResponse.t) (l : Loop)
  : option Loop :=
  match stream with
  | [] => Some l
  | chunk :: rest => l' ← loop_body chunk l; for_await rest l'
  end.

Definition with_sessionService (svc : SessionService.t) (w : World) : World :=
  {| sessionState := sessionState w;
     rendered := rendered w;
     sessionService := svc;
     agentRunner := agentRunner w |}.

Definition with_agentRunner (r : AgentRunner.t) (w : World) : World :=
  {| sessionState := sessionState w;
     rendered := rendered w;
     sessionService := sessionService w;
     agentRunner := r |}.

(** The [userMsg] of a turn. *)
Definition userMsg (fresh : Fresh) (content : string)
    (attachment : option Attachment.t) : Message.t :=
  {| Message.id := userMsg_id fresh;
   Message.role := USER;
   Message.content := content;
   Message.timestamp := userMsg_timestamp fresh;
   Message.attachment := attachment;
   Message.groundingChunks := None |}.

(** The initial [currentAssistantMsg] of a turn. *)
Definition assistantMsg (fresh : Fresh) : Message.t :=
  {| Message.id := assistantMsgId fresh;
   Message.role := ASSISTANT;
   Message.content := "";
   Message.timestamp := assistantMsg_timestamp fresh;
   Message.attachment := None;
   Message.groundingChunks := None |}.

(** The [errorMsg] of the [catch] block. *)
Definition errorMsg (fresh : Fresh) : Message.t :=
  {| Message.id := errorMsg_id fresh;
   Message.role := SYSTEM;
   Message.content := ERROR_TEXT;
   Message.timestamp := errorMsg_timestamp fresh;
   Message.attachment := None;
   Message.groundingChunks := None |}.

Section WithInstruction.

Variable SYSTEM_INSTRUCTION : string.

(** [handleSendMessage(content, attachment)], run to its end against
    the provider's [reply].  [None] stands for an exception that
    escapes the handler.
    [[
      if (!sessionState.sessionId) return;
      sessionService.addMessage(sessionState.sessionId, userMsg);
      setSessionState(prev => ({ ...prev,
        messages: [...prev.messages, userMsg], status: 'thinking' }));
      try {
        const stream = agentRunner.call_agent_async(...);
        for await (const chunk of stream) { ... }
        sessionService.addMessage(sessionState.sessionId, currentAssistantMsg);
        setSessionState(prev => ({ ...prev, status: 'idle' }));
      } catch (error) {
        sessionService.addMessage(sessionState.sessionId, errorMsg);
        setSessionState(prev => ({ ...prev,
          messages: [...prev.messages, errorMsg], status: 'error' }));
      }
    ]] *)
Definition handleSendMessage (fresh : Fresh) (reply : Reply)
    (content : string) (attachment : option Attachment.t) (w : World)
  : option World :=
  let sid := SessionState.sessionId (sessionState w) in
  if String.eqb sid "" then Some w
  else
  let w1 := with_sessionService
              (SessionService.addMessage (sessionService w) sid
                 (userMsg fresh content attachment)) w in
  w2 ← setSessionState (with_message (userMsg fresh content attachment) thinking) w1;
  (* try *)
  let '(runner, stream, ending) :=
    AgentRunner.call_agent_async SYSTEM_INSTRUCTION
      (agentRunner w2) sid content attachment reply in
  l ← for_await stream
        {| currentAssistantMsg := assistantMsg fresh;
           isFirstChunk := true;
           world := with_agentRunner runner w2 |};
  match ending with
  | Completed =>
      let w3 := with_sessionService
                  (SessionService.addMessage (sessionService (world l)) sid
                     (currentAssistantMsg l)) (world l) in
      setSessionState (with_status idle) w3
  | Failed =>
      (* catch (error) *)
      let w3 := with_sessionService
                  (SessionService.addMessage (sessionService (world l)) sid
                     (errorMsg fresh)) (world l) in
      setSessionState (with_message (errorMsg fresh) error) w3
  end.

(** [disabled={status === 'thinking' || status === 'streaming'}]. *)
Definition disabled (w : World) : bool :=
  bool_decide (SessionState.status (sessionState w) = thinking)
  || bool_decide (SessionState.status (sessionState w) = streaming).

(** A submission of the rendered [<ChatInput onSend={handleSendMessage}
    disabled={...} />]: [handleSubmit] with the prop computed from the
    current status, then the turn if [onSend] was called. *)
Definition submit (trim : string → string) (fresh : Fresh) (reply : Reply)
    (ci : ChatInput.State) (w : World) : option (ChatInput.State * World) :=
  match ChatInput.handleSubmit trim (disabled w) ci with
  | (ci', Some (content, attachment)) =>
      w' ← handleSendMessage fresh reply content attachment w;
      Some (ci', w')
  | (ci', None) => Some (ci', w)
  end.

End WithInstruction.

(** The results of the [crypto.randomUUID()], [uuidv4()] and [Date.now()]
    calls of one [initNewSession]. *)
Record FreshSession := {
  newSessionId : string;
  greeting_id : string;
  greeting_timestamp : N
}.

(** The text of the [greeting]. *)
Definition GREETING : string :=
  "### 🕷️ Crawl4AI Validator Ready
**Модули:** Extraction + Reputation Guard + Google Vision
**Цель:** Поиск, Валидация и Извлечение Документов.

**Новые возможности:**
*   **🛡️ Reputation Check:** Я проверяю надежность источников (Official vs Scam).
*   **👁️ Document OCR:** Загрузите изображение/скан (через 📎), чтобы извлечь текст и таблицы.
*   **📡 DOM Auditor:** Используйте кнопку **SCANNER** сверху для генерации JS-инъекции.

*Введите запрос или прикрепите документ...*".

(** The [greeting] message. *)
Definition greeting (fresh : FreshSession) : Message.t :=
  {| Message.id := greeting_id fresh;
     Message.role := ASSISTANT;
     Message.content := GREETING;
     Message.timestamp := greeting_timestamp fresh;
     Message.attachment := None;
     Message.groundingChunks := None |}.

(** [setSessionState(value)]. *)
Definition putSessionState (next : SessionState.t) (w : World) : World :=
  {| sessionState := next;
     rendered := rendered w ++ [next];
     sessionService := sessionService w;
     agentRunner := agentRunner w |}.

(** [initNewSession()]:
    [[
      const newSessionId = sessionService.createSession();
      sessionService.addMessage(newSessionId, greeting);
      setSessionState({ sessionId: newSessionId, messages: [greeting],
                        status: 'idle' });
    ]] *)
Definition initNewSession (fresh : FreshSession) (w : World) : World :=
  let '(sid, svc1) :=
    SessionService.createSession (newSessionId fresh) (sessionService w) in
  let svc2 := SessionService.addMessage svc1 sid (greeting fresh) in
  putSessionState
    {| SessionState.sessionId := sid;
       SessionState.messages := [greeting fresh];
       SessionState.status := idle |}
    (with_sessionService svc2 w).

(** [handleWipeSession()]:
    [[
      if (sessionState.sessionId) {
        agentRunner.resetSession(sessionState.sessionId);
        sessionService.clearSession(sessionState.sessionId);
        initNewSession();
      }
    ]] *)
Definition handleWipeSession (fresh : FreshSession) (w : World) : World :=
  let sid := SessionState.sessionId (sessionState w) in
  if String.eqb sid "" then w
  else
    let w1 := with_agentRunner (AgentRunner.resetSession (agentRunner w) sid) w in
    let w2 := with_sessionService
                (SessionService.clearSession (sessionService w1) sid) w1 in
    initNewSession fresh w2.

(** The application when the component mounts: the initial value of the
    state cell and the two fresh singletons. *)
Definition mount : World :=
  {| sessionState :=
       {| SessionState.sessionId := "";
          SessionState.messages := [];
          SessionState.status := idle |};
     rendered := [];
     sessionService := SessionService.empty;
     agentRunner := AgentRunner.init |}.

(** *** Notions used to state the properties *)

(** The assistant message that the loop holds after the yielded objects
    [stream]. *)
Definition assistant_after (fresh : Fresh) (stream : list AgentResponse.t)
  : Message.t :=
  match last stream with
  | Some chunk => with_chunk (assistantMsg fresh) chunk
  | None => assistantMsg fresh
  end.

(** What the transcript shows of it: nothing before the first yielded
    object. *)
Definition shown_assistant (fresh : Fresh) (stream : list AgentResponse.t)
  : list Message.t :=
  match stream with
  | [] => []
  | _ => [assistant_after fresh stream]
  end.

(** The status a turn ends in. *)
Definition final_status (e : StreamEnd) : Status :=
  match e with
  | Completed => idle
  | Failed => error
  end.

(** The message a turn persists last. *)
Definition persisted_last (fresh : Fresh) (stream : list AgentResponse.t)
    (e : StreamEnd) : Message.t :=
  match e with
  | Completed => assistant_after fresh stream
  | Failed => errorMsg fresh
  end.

(** A list without its immediate repetitions. *)
Fixpoint compress {A} `{EqDecision A} (l : list A) : list A :=
  match l with
  | [] => []
  | x :: rest =>
      match rest with
      | y :: _ => if decide (x = y) then compress rest else x :: compress rest
      | [] => [x]
      end
  end.

(** The statuses the cell went through from [w] to [w']: the status at
    [w], then those of the values rendered since, repetitions removed. *)
Definition status_path (w w' : World) : list Status :=
  compress (SessionState.status (sessionState w)
            :: (SessionState.status <$> drop (length (rendered w)) (rendered w'))).

End App.

(* ===================================================================== *)
(** ** Sample values *)
(* ===================================================================== *)

(** Concrete inputs on which the statements below are exercised. *)
Module Samples.
Import Provider.

Definition message (r : MessageRole) (c : string) : Message.t :=
  {| Message.id := "id-" +:+ c;
     Message.role := r;
     Message.content := c;
     Message.timestamp := 0;
     Message.attachment := None;
     Message.groundingChunks := None |}.

(** A store with two sessions. *)
Definition store : SessionService.t :=
  SessionService.run
    [SessionService.OpCreate "s1";
     SessionService.OpAdd "s1" (message ASSISTANT "greeting");
     SessionService.OpAdd "s2" (message USER "other")]
    SessionService.empty.

(** Calls on two sessions, interleaved; none resets ["s1"]. *)
Definition calls : list SessionService.Op :=
  [SessionService.OpAdd "s1" (message USER "a");
   SessionService.OpAdd "s2" (message USER "b");
   SessionService.OpClear "s2";
   SessionService.OpAdd "s1" (message USER "c")].

(** A streamed chunk that carries text only. *)
Definition text_chunk (t : string) : GenerateContentResponse :=
  {| text := Some t; candidates := None |}.

(** A streamed chunk without text. *)
Definition silent_chunk : GenerateContentResponse :=
  {| text := None; candidates := None |}.

Definition web_entry (u ttl : string) : GroundingChunk.t :=
  {| GroundingChunk.web :=
       Some {| WebSource.uri := Some u; WebSource.title := Some ttl |} |}.

(** A streamed chunk with text and grounding entries. *)
Definition grounded_chunk (t : string) (gcs : list GroundingChunk.t)
  : GenerateContentResponse :=
  {| text := Some t;
     candidates :=
       Some [ {| groundingMetadata :=
                   Some {| groundingChunks := Some gcs |} |} ] |}.

(** A stream in which one URI comes in the first and in the third chunk,
    under two titles. *)
Definition cited_stream : list GenerateContentResponse :=
  [ grounded_chunk "Hel" [web_entry "https://a.example" "First title"];
  grounded_chunk "lo " [web_entry "https://b.example" "Other";
                        {| GroundingChunk.web := None |}];
  grounded_chunk "World" [web_entry "https://a.example" "Second title"] ].

(** An agent client that has served two sessions. *)
Definition runner : AgentRunner.t :=
  (AgentRunner.getOrCreateChat "persona"
   (AgentRunner.getOrCreateChat "persona" AgentRunner.init "s1").2 "s2").2.

Definition fresh : App.Fresh :=
  {| App.userMsg_id := "u1";
     App.userMsg_timestamp := 1;
     App.assistantMsgId := "a1";
     App.assistantMsg_timestamp := 2;
     App.errorMsg_id := "e1";
     App.errorMsg_timestamp := 3 |}.

(** The application after [initNewSession], with a one-line greeting. *)
Definition world : App.World :=
  {| App.sessionState :=
       {| SessionState.sessionId := "s1";
          SessionState.messages := [message ASSISTANT "greeting"];
          SessionState.status := idle |};
     App.rendered := [];
     App.sessionService :=
       SessionService.run
         [SessionService.OpCreate "s1";
          SessionService.OpAdd "s1" (message ASSISTANT "greeting")]
         SessionService.empty;
     App.agentRunner := AgentRunner.init |}.

(** The values drawn for a new session. *)
Definition fresh_session : App.FreshSession :=
  {| App.newSessionId := "s9";
     App.greeting_id := "g9";
     App.greeting_timestamp := 9 |}.

(** A 5 MiB image, and one that is a byte larger. *)
Definition file_at_limit : ChatInput.File :=
  {| ChatInput.size := 5242880; ChatInput.type := "image/png" |}.

Definition file_over_limit : ChatInput.File :=
  {| ChatInput.size := 5242881; ChatInput.type := "image/png" |}.

(** A composer that holds an accepted attachment. *)
Definition composer_with_attachment : ChatInput.State :=
  {| ChatInput.input := "";
   ChatInput.attachment :=
     Some {| Attachment.base64 := Some "QUJD";
             Attachment.mimeType := "image/png" |};
   ChatInput.fileInputRef := Some "C:\fakepath\scan.png";
   ChatInput.textareaRef := Some "auto";
   ChatInput.alerts := [] |}.

(** The application in the middle of a turn. *)
Definition busy_world : App.World :=
  {| App.sessionState :=
     {| SessionState.sessionId := "s1";
        SessionState.messages :=
          [message ASSISTANT "greeting"; message USER "ping"];
        SessionState.status := thinking |};
   App.rendered := [];
   App.sessionService := App.sessionService world;
   App.agentRunner := AgentRunner.init |}.

(** Removal of the blanks at both ends of a string, for the characters
    of ASCII. *)
Fixpoint trim_start (s : string) : string :=
  match s with
  | String c rest => if Ascii.is_space c then trim_start rest else s
  | EmptyString => EmptyString
  end.

Definition trim (s : string) : string :=
  String.rev (trim_start (String.rev (trim_start s))).

(** A composer whose text has blanks around it. *)
Definition padded_composer : ChatInput.State :=
  {| ChatInput.input := "  ping ";
     ChatInput.attachment := None;
     ChatInput.fileInputRef := Some "";
     ChatInput.textareaRef := Some "24px";
     ChatInput.alerts := [] |}.

Definition composer : ChatInput.State :=
  {| ChatInput.input := "ping";
     ChatInput.attachment := None;
     ChatInput.fileInputRef := Some "";
     ChatInput.textareaRef := Some "auto";
     ChatInput.alerts := [] |}.

End Samples.

(* ===================================================================== *)
(** * Properties of the session store *)
(* ===================================================================== *)

Module SessionServiceFacts.
Import SessionService.

Lemma deref_alloc (s : t) : deref (alloc s).2 (alloc s).1 = [].
Proof.
  unfold deref, alloc; simpl.
  by rewrite lookup_app_r, Nat.sub_diag by lia.
Qed.

(** [getHistory] reads the stored array, or an empty one. *)
Lemma history_spec (s : t) (sid : string) :
  history s sid =
  match sessions s !! sid with Some r => deref s r | None => [] end.
Proof.
  unfold history, getHistory.
  destruct (sessions s !! sid) as [r|]; [done|].
  apply deref_alloc.
Qed.

Lemma addMessage_known (s : t) (sid : string) (r : ref) (m : Message.t) :
  sessions s !! sid = Some r →
  addMessage s sid m =
  {| arrays := <[r := deref s r ++ [m]]> (arrays s);
     sessions := <[sid := r]> (sessions s) |}.
Proof. intros H. unfold addMessage, getHistory. by rewrite H. Qed.

Lemma addMessage_unknown (s : t) (sid : string) (m : Message.t) :
  sessions s !! sid = None →
  addMessage s sid m =
  {| arrays := arrays s ++ [[m]];
     sessions := <[sid := length (arrays s)]> (sessions s) |}.
Proof.
  intros H. unfold addMessage, getHistory. rewrite H.
  pose proof (deref_alloc s) as Hd. unfold alloc in *; simpl in *.
  rewrite Hd. f_equal.
  rewrite insert_app_r_alt, Nat.sub_diag by lia. done.
Qed.

Lemma wf_bound (s : t) (sid : string) (r : ref) :
  wf s → sessions s !! sid = Some r → r < length (arrays s).
Proof. intros [Hb _] H. exact (Hb sid r H). Qed.

Lemma wf_inj (s : t) (sid1 sid2 : string) (r : ref) :
  wf s → sessions s !! sid1 = Some r → sessions s !! sid2 = Some r →
  sid1 = sid2.
Proof. intros [_ Hi] H1 H2. exact (Hi sid1 r H1 sid2 r H2 eq_refl). Qed.

Lemma wf_intro (s : t) :
  (∀ sid r, sessions s !! sid = Some r → r < length (arrays s)) →
  (∀ sid1 sid2 r, sessions s !! sid1 = Some r →
                  sessions s !! sid2 = Some r → sid1 = sid2) →
  wf s.
Proof.
  intros Hb Hi. split.
  - intros sid r H. eauto.
  - intros sid1 r1 H1 sid2 r2 H2 ->. eauto.
Qed.

Lemma wf_empty : wf empty.
Proof. apply wf_intro; simpl; intros *; by rewrite lookup_empty. Qed.

Lemma wf_addMessage (s : t) (sid : string) (m : Message.t) :
  wf s → wf (addMessage s sid m).
Proof.
  intros Hwf.
  destruct (sessions s !! sid) as [r|] eqn:Hs.
  - rewrite (addMessage_known _ _ _ _ Hs), insert_id by done.
    apply wf_intro; simpl.
    + intros sid' r' H. rewrite length_insert. eauto using wf_bound.
    + intros. eauto using wf_inj.
  - rewrite (addMessage_unknown _ _ _ Hs).
    apply wf_intro; simpl.
    + intros sid' r' H. rewrite length_app; simpl.
      destruct (decide (sid = sid')) as [->|Hne].
      * rewrite lookup_insert_eq in H. inversion H. lia.
      * rewrite lookup_insert_ne in H by done.
        pose proof (wf_bound _ _ _ Hwf H). lia.
    + intros sid1 sid2 r H1 H2.
      destruct (decide (sid1 = sid)) as [->|Hn1];
        destruct (decide (sid2 = sid)) as [->|Hn2]; [done| | |].
      * rewrite lookup_insert_eq in H1. rewrite lookup_insert_ne in H2 by done.
        inversion H1; subst. pose proof (wf_bound _ _ _ Hwf H2). lia.
      * rewrite lookup_insert_eq in H2. rewrite lookup_insert_ne in H1 by done.
        inversion H2; subst. pose proof (wf_bound _ _ _ Hwf H1). lia.
      * rewrite lookup_insert_ne in H1, H2 by done. eauto using wf_inj.
Qed.

Lemma wf_clearSession (s : t) (sid : string) :
  wf s → wf (clearSession s sid).
Proof.
  intros Hwf. apply wf_intro; simpl.
  - intros sid' r H. apply lookup_delete_Some in H as [_ H].
    eauto using wf_bound.
  - intros sid1 sid2 r H1 H2.
    apply lookup_delete_Some in H1 as [_ H1].
    apply lookup_delete_Some in H2 as [_ H2].
    eauto using wf_inj.
Qed.

Lemma wf_createSession (uuid : string) (s : t) :
  wf s → wf (createSession uuid s).2.
Proof.
  intros Hwf. apply wf_intro; simpl.
  - intros sid' r' H. rewrite length_app; simpl.
    destruct (decide (uuid = sid')) as [->|Hne].
    + rewrite lookup_insert_eq in H. inversion H. lia.
    + rewrite lookup_insert_ne in H by done.
      pose proof (wf_bound _ _ _ Hwf H). lia.
  - intros sid1 sid2 r H1 H2.
    destruct (decide (sid1 = uuid)) as [->|Hn1];
      destruct (decide (sid2 = uuid)) as [->|Hn2]; [done| | |].
    + rewrite lookup_insert_eq in H1. rewrite lookup_insert_ne in H2 by done.
      inversion H1; subst. pose proof (wf_bound _ _ _ Hwf H2). lia.
    + rewrite lookup_insert_eq in H2. rewrite lookup_insert_ne in H1 by done.
      inversion H2; subst. pose proof (wf_bound _ _ _ Hwf H1). lia.
    + rewrite lookup_insert_ne in H1, H2 by done. eauto using wf_inj.
Qed.

Lemma wf_step (s : t) (o : Op) : wf s → wf (step s o).
Proof.
  intros Hwf. destruct o as [uuid|sid m|sid].
  - by apply wf_createSession.
  - by apply wf_addMessage.
  - by apply wf_clearSession.
Qed.

(** Every state the service can reach is well formed. *)
Lemma wf_run (ops : list Op) (s : t) : wf s → wf (run ops s).
Proof.
  revert s. induction ops as [|o ops IH]; intros s Hwf; [done|].
  apply IH, wf_step, Hwf.
Qed.

Lemma reachable_wf (ops : list Op) : wf (run ops empty).
Proof. apply wf_run, wf_empty. Qed.

(** *** Reading a session after one operation *)

Lemma history_addMessage_eq (s : t) (sid : string) (m : Message.t) :
  wf s → history (addMessage s sid m) sid = history s sid ++ [m].
Proof.
  intros Hwf. rewrite (history_spec s).
  destruct (sessions s !! sid) as [r|] eqn:Hs.
  - rewrite (addMessage_known _ _ _ _ Hs), history_spec; simpl.
    rewrite lookup_insert_eq. unfold deref at 1; simpl.
    rewrite list_lookup_insert_eq by eauto using wf_bound. done.
  - rewrite (addMessage_unknown _ _ _ Hs), history_spec; simpl.
    rewrite lookup_insert_eq. unfold deref; simpl.
    by rewrite lookup_app_r, Nat.sub_diag by lia.
Qed.

Lemma history_addMessage_ne (s : t) (sid sid' : string) (m : Message.t) :
  wf s → sid ≠ sid' → history (addMessage s sid m) sid' = history s sid'.
Proof.
  intros Hwf Hne. rewrite !history_spec.
  destruct (sessions s !! sid) as [r|] eqn:Hs.
  - rewrite (addMessage_known _ _ _ _ Hs); simpl.
    rewrite lookup_insert_ne by done.
    destruct (sessions s !! sid') as [r'|] eqn:Hs'; [|done].
    unfold deref; simpl. rewrite list_lookup_insert_ne; [done|].
    intros ->. apply Hne. eauto using wf_inj.
  - rewrite (addMessage_unknown _ _ _ Hs); simpl.
    rewrite lookup_insert_ne by done.
    destruct (sessions s !! sid') as [r'|] eqn:Hs'; [|done].
    unfold deref; simpl. rewrite lookup_app_l; [done|].
    eauto using wf_bound.
Qed.

Lemma history_clearSession_eq (s : t) (sid : string) :
  history (clearSession s sid) sid = [].
Proof. rewrite history_spec; simpl. by rewrite lookup_delete_eq. Qed.

Lemma history_clearSession_ne (s : t) (sid sid' : string) :
  sid ≠ sid' → history (clearSession s sid) sid' = history s sid'.
Proof.
  intros Hne. rewrite !history_spec; simpl.
  by rewrite lookup_delete_ne by done.
Qed.

Lemma history_createSession_ne (s : t) (uuid sid' : string) :
  wf s → uuid ≠ sid' → history (createSession uuid s).2 sid' = history s sid'.
Proof.
  intros Hwf Hne. rewrite !history_spec; simpl.
  rewrite lookup_insert_ne by done.
  destruct (sessions s !! sid') as [r'|] eqn:Hs'; [|done].
  unfold deref; simpl. rewrite lookup_app_l; [done|].
  eauto using wf_bound.
Qed.

(** An operation that does not reset [sid] appends to it what it adds. *)
Lemma history_step (s : t) (sid : string) (o : Op) :
  wf s → resets sid o = false →
  history (step s o) sid = history s sid ++ added sid [o].
Proof.
  intros Hwf Hr. destruct o as [uuid|sid' m|sid']; simpl in *.
  - apply bool_decide_eq_false in Hr.
    rewrite app_nil_r. by apply history_createSession_ne.
  - destruct (decide (sid' = sid)) as [->|Hne]; simpl.
    + by apply history_addMessage_eq.
    + rewrite app_nil_r. by apply history_addMessage_ne.
  - apply bool_decide_eq_false in Hr.
    rewrite app_nil_r. by apply history_clearSession_ne.
Qed.

Lemma added_cons (sid : string) (o : Op) (ops : list Op) :
  added sid (o :: ops) = added sid [o] ++ added sid ops.
Proof. unfold added; simpl. by rewrite app_nil_r. Qed.

Lemma history_run (ops : list Op) (s : t) (sid : string) :
  wf s → forallb (fun o => negb (resets sid o)) ops = true →
  history (run ops s) sid = history s sid ++ added sid ops.
Proof.
  revert s. induction ops as [|o ops IH]; intros s Hwf Hops.
  - simpl. by rewrite app_nil_r.
  - simpl in Hops. apply andb_true_iff in Hops as [Ho Hops].
    apply negb_true_iff in Ho.
    change (run (o :: ops) s) with (run ops (step s o)).
    rewrite IH by auto using wf_step.
    rewrite (history_step _ _ _ Hwf Ho), (added_cons sid o ops).
    by rewrite app_assoc.
Qed.

Lemma added_OpAdd (sid : string) (ms : list Message.t) :
  added sid (OpAdd sid <$> ms) = ms.
Proof.
  induction ms as [|m ms IH]; [done|].
  rewrite fmap_cons, added_cons, IH. simpl.
  by rewrite decide_True.
Qed.

Lemma no_reset_OpAdd (sid : string) (ms : list Message.t) :
  forallb (fun o => negb (resets sid o)) (OpAdd sid <$> ms) = true.
Proof. induction ms as [|m ms IH]; [done|]. by rewrite fmap_cons. Qed.

(** *** The claims about the store *)

(** C3.  Starting from any state the service can be in, run any sequence
    of calls in which none removes or re-creates session [sid].  Then
    [getHistory(sid)] reads what it read before followed by the messages
    that the [addMessage(sid, _)] calls of the sequence passed, in call
    order, whatever calls on other sessions were interleaved; for a
    sequence made of [addMessage(sid, _)] calls only this is the list
    of their messages.  An [addMessage] on an unknown identifier
    registers it, and the session then holds that single message. *)
Theorem addMessage_appends_in_call_order (s : t) (sid : string) :
  wf s →
  (∀ ops, forallb (fun o => negb (resets sid o)) ops = true →
          history (run ops s) sid = history s sid ++ added sid ops) ∧
  (∀ ms, history (run (OpAdd sid <$> ms) s) sid = history s sid ++ ms) ∧
  (∀ m, sessions s !! sid = None →
        is_Some (sessions (addMessage s sid m) !! sid) ∧
        history (addMessage s sid m) sid = [m]).
Proof.
  intros Hwf. split; [|split].
  - intros ops Hops. by apply history_run.
  - intros ms. rewrite history_run by auto using no_reset_OpAdd.
    by rewrite added_OpAdd.
  - intros m Hs. split.
    + rewrite (addMessage_unknown _ _ _ Hs); simpl.
      rewrite lookup_insert_eq. eauto.
    + rewrite history_addMessage_eq, history_spec, Hs by done. done.
Qed.

(** C9.  [getHistory] is total: it reads the stored array when the
    identifier is known and an empty array when it is not.  After
    [clearSession(sid)] the identifier is unknown, so [getHistory(sid)]
    reads an empty sequence, whatever the session held before. *)
Theorem getHistory_empty_when_unknown_or_cleared (s : t) (sid : string) :
  history s sid
    = match sessions s !! sid with Some r => deref s r | None => [] end
  ∧ sessions (clearSession s sid) !! sid = None
  ∧ history (clearSession s sid) sid = [].
Proof.
  split; [apply history_spec|split].
  - simpl. apply lookup_delete_eq.
  - apply history_clearSession_eq.
Qed.

(** C10.  In any state the service can be in, [addMessage(sid, m)] and
    [clearSession(sid)] leave what [getHistory(sid')] reads unchanged
    for every other identifier [sid']. *)
Theorem operations_are_session_local
    (s : t) (sid sid' : string) (m : Message.t) :
  wf s → sid ≠ sid' →
  history (addMessage s sid m) sid' = history s sid' ∧
  history (clearSession s sid) sid' = history s sid'.
Proof.
  intros Hwf Hne. split.
  - by apply history_addMessage_ne.
  - by apply history_clearSession_ne.
Qed.

Lemma addMessage_appends_in_call_order_witness :
  wf Samples.store ∧
  history (run Samples.calls Samples.store) "s1"
    = history Samples.store "s1" ++ added "s1" Samples.calls ∧
  history (addMessage Samples.store "s3" (Samples.message USER "a")) "s3"
    = [Samples.message USER "a"].
Proof.
  assert (Hwf : wf Samples.store)
    by (apply (bool_decide_unpack _); vm_compute; exact I).
  destruct (addMessage_appends_in_call_order Samples.store "s1" Hwf)
    as (Hrun & _ & _).
  destruct (addMessage_appends_in_call_order Samples.store "s3" Hwf)
    as (_ & _ & Hnew).
  split; [exact Hwf|split].
  - apply Hrun. reflexivity.
  - apply Hnew. vm_compute. reflexivity.
Defined.

Lemma operations_are_session_local_witness :
  history (addMessage Samples.store "s1" (Samples.message USER "a")) "s2"
    = history Samples.store "s2" ∧
  history (clearSession Samples.store "s1") "s2"
    = history Samples.store "s2".
Proof.
  apply operations_are_session_local.
  - apply (bool_decide_unpack _); vm_compute; exact I.
  - discriminate.
Defined.

End SessionServiceFacts.

(* ===================================================================== *)
(** * Properties of the agent client *)
(* ===================================================================== *)

Module StringFacts.

Lemma app_cons (a : ascii) (s t : string) :
  String a s +:+ t = String a (s +:+ t).
Proof. reflexivity. Qed.

Lemma app_nil_l (s : string) : "" +:+ s = s.
Proof. reflexivity. Qed.

Lemma app_nil_r (s : string) : s +:+ "" = s.
Proof. induction s as [|a s IH]; [done|]. by rewrite app_cons, IH. Qed.

Lemma app_assoc (s1 s2 s3 : string) : s1 +:+ (s2 +:+ s3) = (s1 +:+ s2) +:+ s3.
Proof. induction s1 as [|a s1 IH]; [done|]. by rewrite !app_cons, IH. Qed.

Lemma length_app (s1 s2 : string) :
  String.length (s1 +:+ s2) = String.length s1 + String.length s2.
Proof. induction s1 as [|a s1 IH]; [done|]. rewrite app_cons; simpl. by rewrite IH. Qed.

Lemma length_zero (s : string) : String.length s = 0 ↔ s = "".
Proof. destruct s; simpl; split; intros; done. Qed.

End StringFacts.

Module AgentRunnerFacts.
Import Provider AgentRunner.

(** *** Accumulation of the text *)

Lemma yields_length (acc : Acc) (chunks : list GenerateContentResponse) :
  length (yields acc chunks) = length chunks.
Proof.
  revert acc. induction chunks as [|c chunks IH]; intros acc; simpl; [done|].
  by rewrite IH.
Qed.

(** The text of the [i]-th yielded object. *)
Lemma yields_text (acc : Acc) (chunks : list GenerateContentResponse)
    (i : nat) (c : GenerateContentResponse) :
  chunks !! i = Some c →
  AgentResponse.text <$> yields acc chunks !! i
  = Some (accumulatedText acc +:+ joined (chunk_text <$> take (S i) chunks)).
Proof.
  revert acc i. induction chunks as [|c0 chunks IH]; intros acc i Hc; [done|].
  destruct i as [|i]; simpl in *.
  - unfold joined; simpl. by rewrite StringFacts.app_nil_r.
  - rewrite (IH _ _ Hc); simpl.
    unfold joined, chunk_text; simpl. by rewrite StringFacts.app_assoc.
Qed.

(** Two successive yielded objects differ by the text of the chunk that
    arrived between them. *)
Lemma yields_next (acc : Acc) (chunks : list GenerateContentResponse)
    (i : nat) (a b : AgentResponse.t) (c : GenerateContentResponse) :
  yields acc chunks !! i = Some a →
  yields acc chunks !! S i = Some b →
  chunks !! S i = Some c →
  AgentResponse.text b = AgentResponse.text a +:+ chunk_text c.
Proof.
  revert acc i. induction chunks as [|c0 chunks IH]; intros acc i Ha Hb Hc;
    [done|].
  destruct i as [|i]; simpl in *.
  - destruct chunks as [|c1 chunks]; simplify_eq/=. done.
  - eauto.
Qed.

(** *** The objects yielded, chunk by chunk *)

(** The [k]-th yielded object shows the generator's variables after the
    first [k + 1] chunks. *)
Lemma yields_lookup (acc : Acc) (chunks : list GenerateContentResponse)
    (k : nat) (c : GenerateContentResponse) :
  chunks !! k = Some c →
  yields acc chunks !! k
  = Some (snapshot (fold_left consume (take (S k) chunks) acc)).
Proof.
  revert acc k. induction chunks as [|c0 chunks IH]; intros acc k Hc; [done|].
  destruct k as [|k]; simpl in *.
  - done.
  - by rewrite (IH _ _ Hc).
Qed.

Lemma yields_lookup_inv (acc : Acc) (chunks : list GenerateContentResponse)
    (k : nat) (resp : AgentResponse.t) :
  yields acc chunks !! k = Some resp →
  resp = snapshot (fold_left consume (take (S k) chunks) acc).
Proof.
  intros Hk.
  assert (is_Some (chunks !! k)) as [c Hc].
  { apply lookup_lt_is_Some. rewrite <- (yields_length acc).
    by eapply lookup_lt_Some. }
  rewrite (yields_lookup _ _ _ _ Hc) in Hk. by inversion Hk.
Qed.

Lemma yields_last (acc : Acc) (chunks : list GenerateContentResponse) :
  chunks ≠ [] →
  last (yields acc chunks) = Some (snapshot (fold_left consume chunks acc)).
Proof.
  intros Hne. rewrite last_lookup, yields_length.
  destruct (last chunks) as [c|] eqn:Hlast.
  - rewrite last_lookup in Hlast.
    rewrite (yields_lookup _ _ _ _ Hlast). do 3 f_equal.
    apply take_ge. lia.
  - apply last_is_Some in Hne. rewrite Hlast in Hne. by destruct Hne.
Qed.

(** *** Collection of the citations *)

(** The generator's array after a stream: the web entries that arrived,
    pushed one by one. *)
Lemma groundingChunks_fold (chunks : list GenerateContentResponse) (acc : Acc) :
  groundingChunks (fold_left consume chunks acc)
  = fold_left push_new (arrived chunks) (groundingChunks acc).
Proof.
  revert acc. induction chunks as [|c chunks IH]; intros acc; [done|].
  unfold arrived in *; simpl. by rewrite IH, fold_left_app.
Qed.

Lemma find_app {A} (p : A → bool) (l1 l2 : list A) :
  List.find p (l1 ++ l2)
  = match List.find p l1 with Some x => Some x | None => List.find p l2 end.
Proof.
  induction l1 as [|x l1 IH]; simpl; [done|]. by destruct (p x).
Qed.

Lemma existsb_false {A} (p : A → bool) (l : list A) :
  existsb p l = false → ∀ x, x ∈ l → p x = false.
Proof.
  intros He x Hx. apply not_true_iff_false. intros Hp.
  apply not_true_iff_false in He. apply He, existsb_exists.
  exists x. split; [by apply list_elem_of_In|done].
Qed.

(** First seen wins: the first entry with a given URI among the collected
    ones is the first with that URI among the old ones and the arrivals. *)
Lemma first_with_uri_push_all (u : string)
    (entries collected : list GroundingChunk.t) :
  first_with_uri u (fold_left push_new entries collected)
  = first_with_uri u (collected ++ entries).
Proof.
  revert collected.
  induction entries as [|wc entries IH]; intros collected; simpl.
  { by rewrite app_nil_r. }
  rewrite IH. unfold push_new.
  destruct (existsb _ collected) eqn:He.
  - unfold first_with_uri. rewrite !find_app.
    destruct (List.find _ collected) as [x|] eqn:Hfind; [done|]. simpl.
    apply existsb_exists in He as (gc & Hgc & Heq).
    apply bool_decide_eq_true in Heq.
    pose proof (find_none _ _ Hfind gc Hgc) as Hno. simpl in Hno.
    rewrite Heq in Hno. by rewrite Hno.
  - by rewrite <- app_assoc.
Qed.

(** No URI is collected twice. *)
Lemma NoDup_push_all (entries collected : list GroundingChunk.t) :
  NoDup (web_uri <$> collected) →
  NoDup (web_uri <$> fold_left push_new entries collected).
Proof.
  revert collected.
  induction entries as [|wc entries IH]; intros collected Hnd; simpl; [done|].
  apply IH. unfold push_new.
  destruct (existsb _ collected) eqn:He; [done|].
  rewrite fmap_app. apply NoDup_app. split; [done|]. split.
  - intros k Hk Hin. apply list_elem_of_singleton in Hin as ->.
    apply list_elem_of_fmap in Hk as (gc & Heq & Hgc).
    pose proof (existsb_false _ _ He gc Hgc) as Hno. simpl in Hno.
    apply bool_decide_eq_false in Hno. by apply Hno.
  - apply NoDup_singleton.
Qed.

(** Nothing is collected exactly when nothing arrived. *)
Lemma push_all_nil (entries collected : list GroundingChunk.t) :
  fold_left push_new entries collected = [] ↔ collected = [] ∧ entries = [].
Proof.
  revert collected.
  induction entries as [|wc entries IH]; intros collected; simpl.
  { split; [by intros ->|by intros [-> _]]. }
  rewrite IH. unfold push_new.
  destruct (existsb _ collected) eqn:He.
  - destruct collected; [done|]. split; intros [? ?]; done.
  - split; intros [Hnil ?]; [by destruct collected|done].
Qed.

Lemma filter_none {A} (P : A → Prop) `{∀ x, Decision (P x)} (l : list A) :
  (∀ x, x ∈ l → ¬ P x) → filter P l = [].
Proof.
  induction l as [|x l IH]; intros Hno; [done|].
  rewrite filter_cons_False by (apply Hno; left).
  apply IH. intros z Hz. apply Hno. by right.
Qed.

(** In a list without repeated URIs, the first entry with a URI is the
    only one. *)
Lemma filter_uri_unique (u : string) (l : list GroundingChunk.t)
    (x : GroundingChunk.t) :
  NoDup (web_uri <$> l) →
  first_with_uri u l = Some x →
  filter (fun gc => web_uri gc = Some u) l = [x].
Proof.
  induction l as [|y l IH]; intros Hnd Hfind; [done|].
  rewrite fmap_cons in Hnd. apply NoDup_cons in Hnd as [Hy Hnd].
  unfold first_with_uri in *; simpl in Hfind.
  destruct (bool_decide (web_uri y = Some u)) eqn:Hyu.
  - apply bool_decide_eq_true in Hyu. inversion Hfind; subst x.
    rewrite filter_cons_True by done. f_equal.
    apply filter_none. intros z Hz Hzu. apply Hy.
    rewrite Hyu, <- Hzu. by apply list_elem_of_fmap_2.
  - apply bool_decide_eq_false in Hyu.
    rewrite filter_cons_False by done. by apply IH.
Qed.

Lemma elem_of_arrived (chunks : list GenerateContentResponse) (i : nat)
    (c : GenerateContentResponse) (gc : GroundingChunk.t) :
  chunks !! i = Some c → gc ∈ webChunks c → gc ∈ arrived chunks.
Proof.
  intros Hc Hgc. unfold arrived.
  apply list_elem_of_In, in_concat. exists (webChunks c).
  split; [|by apply list_elem_of_In].
  apply list_elem_of_In, list_elem_of_fmap_2.
  by eapply list_elem_of_lookup_2.
Qed.

Lemma first_with_uri_is_Some (u : string) (l : list GroundingChunk.t)
    (gc : GroundingChunk.t) :
  gc ∈ l → web_uri gc = Some u → is_Some (first_with_uri u l).
Proof.
  intros Hgc Hu. unfold first_with_uri.
  destruct (List.find _ l) as [x|] eqn:Hfind; [by eexists|].
  apply list_elem_of_In in Hgc.
  pose proof (find_none _ _ Hfind gc Hgc) as Hno. simpl in Hno.
  apply bool_decide_eq_false in Hno. done.
Qed.

Lemma snapshot_groundingChunks (acc : Acc) :
  AgentResponse.groundingChunks (snapshot acc)
  = match groundingChunks acc with [] => None | _ => Some (groundingChunks acc) end.
Proof. unfold snapshot; simpl. by destruct (groundingChunks acc). Qed.

(** C1 (as amended).  The generator yields one object per chunk, and the
    text of the [i]-th one is the concatenation of the texts of the first
    [i] chunks and of chunk [i]: the whole text so far, not the last
    piece.  From one yielded object to the next the text is extended by the
    text of the chunk that arrived, so it never gets shorter and never
    restarts; it gets strictly longer exactly when that chunk has a
    non-empty text, and the sequence of texts grows strictly when every
    chunk has one.  For the chunks "Hel", "lo ", "World" the texts are
    "Hel", "Hello ", "Hello World". *)
Theorem snapshot_text_accumulates (chunks : list GenerateContentResponse) :
  length (yields acc0 chunks) = length chunks ∧
  (∀ i c, chunks !! i = Some c →
     AgentResponse.text <$> yields acc0 chunks !! i
     = Some (joined (chunk_text <$> take (S i) chunks))) ∧
  (∀ i a b c,
     yields acc0 chunks !! i = Some a →
     yields acc0 chunks !! S i = Some b →
     chunks !! S i = Some c →
     AgentResponse.text b = AgentResponse.text a +:+ chunk_text c ∧
     (String.length (AgentResponse.text a)
      ≤ String.length (AgentResponse.text b))%nat ∧
     ((String.length (AgentResponse.text a)
       < String.length (AgentResponse.text b))%nat
      ↔ chunk_text c ≠ "")) ∧
  (Forall (fun c => chunk_text c ≠ "") chunks →
   strictly_growing (AgentResponse.text <$> yields acc0 chunks)) ∧
  AgentResponse.text
    <$> yields acc0 (Samples.text_chunk <$> ["Hel"; "lo "; "World"])
  = ["Hel"; "Hello "; "Hello World"].
Proof.
  split; [apply yields_length|].
  split; [intros i c Hc; by rewrite (yields_text _ _ _ _ Hc)|].
  split; [|split; [|reflexivity]].
  - intros i a b c Ha Hb Hc.
    pose proof (yields_next _ _ _ _ _ _ Ha Hb Hc) as Hnext.
    rewrite Hnext, StringFacts.length_app.
    split; [done|split; [lia|]].
    rewrite <- (StringFacts.length_zero (chunk_text c)). lia.
  - intros Hall i ta tb Hta Htb.
    rewrite list_lookup_fmap in Hta, Htb.
    destruct (yields acc0 chunks !! i) as [a|] eqn:Ha; [|done].
    destruct (yields acc0 chunks !! S i) as [b|] eqn:Hb; [|done].
    simplify_eq/=.
    assert (is_Some (chunks !! S i)) as [c Hc].
    { apply lookup_lt_is_Some. rewrite <- (yields_length acc0).
      by eapply lookup_lt_Some. }
    exists (chunk_text c). split.
    + rewrite Forall_forall in Hall. apply Hall.
      by eapply list_elem_of_lookup_2.
    + by eapply yields_next.
Qed.

Lemma snapshot_text_accumulates_witness :
  strictly_growing
    (AgentResponse.text
       <$> yields acc0 (Samples.text_chunk <$> ["Hel"; "lo "; "World"])).
Proof.
  apply (snapshot_text_accumulates (Samples.text_chunk <$> ["Hel"; "lo "; "World"])).
  repeat constructor; discriminate.
Defined.

(** The texts need not grow strictly: a chunk without text makes the
    generator yield the same text again. *)
Lemma snapshot_text_repeats_on_silent_chunk :
  AgentResponse.text
    <$> yields acc0 [Samples.text_chunk "a"; Samples.silent_chunk]
  = ["a"; "a"] ∧
  ¬ strictly_growing
      (AgentResponse.text
         <$> yields acc0 [Samples.text_chunk "a"; Samples.silent_chunk]).
Proof.
  split; [reflexivity|].
  intros H. destruct (H 0 "a" "a" eq_refl eq_refl) as (d & Hd & Heq).
  destruct d; [done|discriminate].
Qed.

(** The generator's array only grows: what was collected stays, in
    place.  (The yielded objects share this array, so an object read
    after later chunks shows the later contents; whether the field is
    present does not change.) *)
Lemma push_all_prefix (entries collected : list GroundingChunk.t) :
  collected `prefix_of` fold_left push_new entries collected.
Proof.
  revert collected.
  induction entries as [|wc entries IH]; intros collected; simpl; [done|].
  etrans; [|apply IH]. unfold push_new.
  destruct (existsb _ collected); [done|]. by apply prefix_app_r.
Qed.

(** A URI that arrived at all is cited once at the end of the stream, by
    the first entry that carried it. *)
Lemma uri_cited_once (chunks : list GenerateContentResponse) (i : nat)
    (c : GenerateContentResponse) (gc : GroundingChunk.t) (u : string) :
  chunks !! i = Some c → gc ∈ webChunks c → web_uri gc = Some u →
  ∃ final cites first,
    last (yields acc0 chunks) = Some final ∧
    AgentResponse.groundingChunks final = Some cites ∧
    filter (fun gc => web_uri gc = Some u) cites = [first] ∧
    first_with_uri u (arrived chunks) = Some first.
Proof.
  intros Hc Hgc Hu.
  assert (Hne : chunks ≠ []) by (intros ->; done).
  pose proof (elem_of_arrived _ _ _ _ Hc Hgc) as Harr.
  destruct (first_with_uri_is_Some u _ _ Harr Hu) as [first Hfirst].
  set (cites := fold_left push_new (arrived chunks) []).
  assert (Hcites : groundingChunks (fold_left consume chunks acc0) = cites)
    by apply groundingChunks_fold.
  assert (Hfind : first_with_uri u cites = Some first).
  { unfold cites. by rewrite first_with_uri_push_all. }
  exists (snapshot (fold_left consume chunks acc0)), cites, first.
  split; [by apply yields_last|]. split; [|split; [|done]].
  - rewrite snapshot_groundingChunks, Hcites.
    destruct cites; [done|done].
  - apply filter_uri_unique; [|done].
    apply NoDup_push_all. constructor.
Qed.

(** C2.  Take any stream.  If a URI occurs in a web entry of the
    grounding metadata of two different chunks, the last yielded object
    has a citation list, that list holds exactly one entry with this URI,
    and the entry is the first one with this URI that arrived (so its
    title is the first one seen).  At every point of the stream the
    yielded object has its [groundingChunks] field present if and only if
    some web entry has arrived up to that point, and a list that is
    present never holds two entries with the same URI. *)
Theorem citations_deduplicated_by_uri (chunks : list GenerateContentResponse) :
  (∀ i j ci cj gi gj u,
     i ≠ j →
     chunks !! i = Some ci → gi ∈ webChunks ci → web_uri gi = Some u →
     chunks !! j = Some cj → gj ∈ webChunks cj → web_uri gj = Some u →
     ∃ final cites first,
       last (yields acc0 chunks) = Some final ∧
       AgentResponse.groundingChunks final = Some cites ∧
       filter (fun gc => web_uri gc = Some u) cites = [first] ∧
       first_with_uri u (arrived chunks) = Some first) ∧
  (∀ k resp,
     yields acc0 chunks !! k = Some resp →
     (is_Some (AgentResponse.groundingChunks resp)
      ↔ arrived (take (S k) chunks) ≠ []) ∧
     (∀ cites, AgentResponse.groundingChunks resp = Some cites →
               NoDup (web_uri <$> cites))).
Proof.
  split.
  - intros i j ci cj gi gj u _ Hci Hgi Hui _ _ _.
    by eapply uri_cited_once.
  - intros k resp Hk.
    apply yields_lookup_inv in Hk as ->.
    rewrite snapshot_groundingChunks, groundingChunks_fold; simpl.
    pose proof (push_all_nil (arrived (take (S k) chunks)) []) as Hnil.
    pose proof (NoDup_push_all (arrived (take (S k) chunks)) []) as Hnd.
    destruct (fold_left push_new (arrived (take (S k) chunks)) [])
      as [|gc collected] eqn:Hcol.
    + split.
      * split; [by intros [? ?]|]. intros Harr. exfalso. apply Harr.
        by apply Hnil.
      * intros cites Hc. done.
    + split.
      * split; [|by eexists]. intros _ Harr.
        destruct Hnil as [_ Hnil]. by specialize (Hnil (conj eq_refl Harr)).
      * intros cites Hc. inversion Hc; subst cites. apply Hnd. constructor.
Qed.

Lemma citations_deduplicated_by_uri_witness :
  ∃ final cites first,
    last (yields acc0 Samples.cited_stream) = Some final ∧
    AgentResponse.groundingChunks final = Some cites ∧
    filter (fun gc => web_uri gc = Some "https://a.example") cites = [first] ∧
    first_with_uri "https://a.example" (arrived Samples.cited_stream)
    = Some first.
Proof.
  refine (proj1 (citations_deduplicated_by_uri Samples.cited_stream)
            0 2 _ _
            (Samples.web_entry "https://a.example" "First title")
            (Samples.web_entry "https://a.example" "Second title")
            "https://a.example" _ eq_refl _ eq_refl eq_refl _ eq_refl).
  - discriminate.
  - apply (bool_decide_unpack _); vm_compute; exact I.
  - apply (bool_decide_unpack _); vm_compute; exact I.
Defined.

(** On the sample stream the URI seen in the first and in the third
    chunk is cited once, under the title that came first, and the entry
    without [web] of the second chunk is not collected.  A stream without
    grounding metadata yields objects without a citation list. *)
Example cited_stream_citations :
  AgentResponse.groundingChunks <$> yields acc0 Samples.cited_stream
  = [ Some [Samples.web_entry "https://a.example" "First title"];
      Some [Samples.web_entry "https://a.example" "First title";
            Samples.web_entry "https://b.example" "Other"];
      Some [Samples.web_entry "https://a.example" "First title";
            Samples.web_entry "https://b.example" "Other"] ] ∧
  AgentResponse.groundingChunks
    <$> yields acc0 [Samples.text_chunk "x"; Samples.silent_chunk]
  = [None; None].
Proof. split; reflexivity. Qed.

(** *** The handle cache *)

Section HandleCache.

Variable SYSTEM_INSTRUCTION : string.

Lemma wf_init : wf init.
Proof. split; simpl; apply map_Forall_empty. Qed.

Lemma wf_uid_bound (r : t) (sid : string) (chat : Chat) :
  wf r → chatSessions r !! sid = Some chat → chat_uid chat < created (client r).
Proof. intros [Hb _] H. exact (Hb sid chat H). Qed.

Lemma getOrCreateChat_known (r : t) (sid : string) (chat : Chat) :
  chatSessions r !! sid = Some chat →
  getOrCreateChat SYSTEM_INSTRUCTION r sid = (chat, r).
Proof. intros H. unfold getOrCreateChat. by rewrite H. Qed.

Lemma getOrCreateChat_unknown (r : t) (sid : string) :
  chatSessions r !! sid = None →
  getOrCreateChat SYSTEM_INSTRUCTION r sid
  = ((chats_create SYSTEM_INSTRUCTION (client r)).1,
     {| client := (chats_create SYSTEM_INSTRUCTION (client r)).2;
        chatSessions :=
          <[sid := (chats_create SYSTEM_INSTRUCTION (client r)).1]>
            (chatSessions r) |}).
Proof. intros H. unfold getOrCreateChat. by rewrite H. Qed.

Lemma wf_getOrCreateChat (r : t) (sid : string) :
  wf r → wf (getOrCreateChat SYSTEM_INSTRUCTION r sid).2.
Proof.
  intros Hwf. destruct (chatSessions r !! sid) as [chat|] eqn:Hs.
  - by rewrite (getOrCreateChat_known _ _ _ Hs).
  - rewrite (getOrCreateChat_unknown _ _ Hs); simpl.
    destruct Hwf as [Hb Hi]. split; simpl.
    + intros sid' chat' H.
      destruct (decide (sid' = sid)) as [->|Hne].
      * rewrite lookup_insert_eq in H. inversion H; simpl. lia.
      * rewrite lookup_insert_ne in H by done.
        pose proof (Hb _ _ H) as Hlt. simpl in Hlt. lia.
    + intros sid1 chat1 H1 sid2 chat2 H2 Heq.
      destruct (decide (sid1 = sid)) as [->|Hn1];
        destruct (decide (sid2 = sid)) as [->|Hn2]; [done| | |].
      * rewrite lookup_insert_eq in H1. rewrite lookup_insert_ne in H2 by done.
        inversion H1; subst chat1; simpl in Heq.
        pose proof (Hb _ _ H2) as Hlt. simpl in Hlt. lia.
      * rewrite lookup_insert_eq in H2. rewrite lookup_insert_ne in H1 by done.
        inversion H2; subst chat2; simpl in Heq.
        pose proof (Hb _ _ H1) as Hlt. simpl in Hlt. lia.
      * rewrite lookup_insert_ne in H1, H2 by done.
        exact (Hi _ _ H1 _ _ H2 Heq).
Qed.

Lemma wf_resetSession (r : t) (sid : string) : wf r → wf (resetSession r sid).
Proof.
  intros [Hb Hi]. split; simpl.
  - intros sid' chat H. apply lookup_delete_Some in H as [_ H].
    exact (Hb _ _ H).
  - intros sid1 chat1 H1 sid2 chat2 H2 Heq.
    apply lookup_delete_Some in H1 as [_ H1].
    apply lookup_delete_Some in H2 as [_ H2].
    exact (Hi _ _ H1 _ _ H2 Heq).
Qed.

(** C8.  The cache maps a session identifier to at most one handle, and
    in any state the client can be in:
    - when a handle is cached for [sid], [getOrCreateChat] returns it and
      changes nothing, and no chat is created;
    - when none is cached, it creates one chat, caches it and returns it;
    - a second call returns the handle of the first and changes nothing;
    - the handles cached for other identifiers are not touched;
    - after [resetSession(sid)] no handle is cached for [sid], and the
      next [getOrCreateChat(sid)] creates a chat that is none of the
      handles cached before. *)
Theorem handle_cache_one_handle_per_session (r : t) (sid : string) :
  wf r →
  (∀ chat, chatSessions r !! sid = Some chat →
           getOrCreateChat SYSTEM_INSTRUCTION r sid = (chat, r)) ∧
  (chatSessions r !! sid = None →
   ∃ chat r',
     getOrCreateChat SYSTEM_INSTRUCTION r sid = (chat, r') ∧
     chat_uid chat = created (client r) ∧
     created (client r') = S (created (client r)) ∧
     chatSessions r' = <[sid := chat]> (chatSessions r)) ∧
  (∀ chat r1,
     getOrCreateChat SYSTEM_INSTRUCTION r sid = (chat, r1) →
     chatSessions r1 !! sid = Some chat ∧
     getOrCreateChat SYSTEM_INSTRUCTION r1 sid = (chat, r1)) ∧
  (∀ sid', sid ≠ sid' →
     chatSessions (getOrCreateChat SYSTEM_INSTRUCTION r sid).2 !! sid'
     = chatSessions r !! sid' ∧
     chatSessions (resetSession r sid) !! sid' = chatSessions r !! sid') ∧
  chatSessions (resetSession r sid) !! sid = None ∧
  (∃ chat r2,
     getOrCreateChat SYSTEM_INSTRUCTION (resetSession r sid) sid = (chat, r2) ∧
     chatSessions r2 !! sid = Some chat ∧
     created (client r2) = S (created (client r)) ∧
     ∀ sid' old, chatSessions r !! sid' = Some old → old ≠ chat) ∧
  wf (getOrCreateChat SYSTEM_INSTRUCTION r sid).2 ∧
  wf (resetSession r sid).
Proof.
  intros Hwf.
  split; [intros chat H; by apply getOrCreateChat_known|].
  split.
  { intros H. rewrite (getOrCreateChat_unknown _ _ H).
    eexists _, _. split; [done|]. by simpl. }
  split.
  { intros chat r1 Hg.
    destruct (chatSessions r !! sid) as [chat0|] eqn:Hs.
    - rewrite (getOrCreateChat_known _ _ _ Hs) in Hg. inversion Hg; subst.
      split; [done|]. by apply getOrCreateChat_known.
    - rewrite (getOrCreateChat_unknown _ _ Hs) in Hg. inversion Hg; subst.
      simpl. rewrite lookup_insert_eq. split; [done|].
      apply getOrCreateChat_known. simpl. by rewrite lookup_insert_eq. }
  split.
  { intros sid' Hne. split; [|simpl; by rewrite lookup_delete_ne].
    destruct (chatSessions r !! sid) as [chat0|] eqn:Hs.
    - by rewrite (getOrCreateChat_known _ _ _ Hs).
    - rewrite (getOrCreateChat_unknown _ _ Hs); simpl.
      by rewrite lookup_insert_ne. }
  split; [simpl; apply lookup_delete_eq|].
  split; [|split; [by apply wf_getOrCreateChat|by apply wf_resetSession]].
  assert (Hs : chatSessions (resetSession r sid) !! sid = None)
    by (simpl; apply lookup_delete_eq).
  rewrite (getOrCreateChat_unknown _ _ Hs).
  eexists _, _. split; [done|]. simpl.
  rewrite lookup_insert_eq. split; [done|]. split; [done|].
  intros sid' old Hold Heq. subst old.
  pose proof (wf_uid_bound _ _ _ Hwf Hold) as Hlt. simpl in Hlt. lia.
Qed.

End HandleCache.

Lemma handle_cache_one_handle_per_session_witness :
  ∃ chat r2,
    getOrCreateChat "persona" (resetSession Samples.runner "s1") "s1" = (chat, r2) ∧
    chatSessions r2 !! "s1" = Some chat ∧
    created (client r2) = S (created (client Samples.runner)) ∧
    ∀ sid' old, chatSessions Samples.runner !! sid' = Some old → old ≠ chat.
Proof.
  apply (handle_cache_one_handle_per_session "persona" Samples.runner "s1").
  apply (bool_decide_unpack _); vm_compute; exact I.
Defined.

End AgentRunnerFacts.

(* ===================================================================== *)
(** * Properties of the attachment input *)
(* ===================================================================== *)

Module ChatInputFacts.
Import ChatInput.

Lemma MAX_FILE_SIZE_BYTES_value : MAX_FILE_SIZE_BYTES = 5242880%N.
Proof. reflexivity. Qed.

(** A file within the limit is handed to the reader; nothing else
    changes. *)
Lemma handleFileSelect_accepts (st : State) (file : File) (others : list File) :
  (size file ≤ MAX_FILE_SIZE_BYTES)%N →
  handleFileSelect (Some (file :: others)) st = (st, Some file).
Proof.
  intros Hle. unfold handleFileSelect; simpl.
  by rewrite (proj2 (N.ltb_ge _ _) Hle).
Qed.

(** A file over the limit is not handed to the reader: one notice is
    raised and the file-selection control is emptied. *)
Lemma handleFileSelect_rejects (st : State) (file : File) (others : list File) :
  (MAX_FILE_SIZE_BYTES < size file)%N →
  handleFileSelect (Some (file :: others)) st
  = ({| input := input st;
        attachment := attachment st;
        fileInputRef := (fun _ => "") <$> fileInputRef st;
        textareaRef := textareaRef st;
        alerts := alerts st ++ [too_large_notice] |},
     None).
Proof.
  intros Hlt. unfold handleFileSelect; simpl.
  by rewrite (proj2 (N.ltb_lt _ _) Hlt).
Qed.

(** [split] on a string whose first separator is known. *)
Lemma split_cons (sep : ascii) (p d : string) :
  occurs sep p = false →
  split sep (p +:+ String sep d) = p :: split sep d.
Proof.
  induction p as [|a p IH]; intros Hp.
  - rewrite StringFacts.app_nil_l; simpl. by rewrite Ascii.eqb_refl.
  - simpl in Hp. apply orb_false_iff in Hp as [Ha Hp].
    rewrite StringFacts.app_cons; simpl. by rewrite Ha, (IH Hp).
Qed.

Lemma split_head (sep : ascii) (d : string) :
  occurs sep d = false → split sep d = [d].
Proof.
  induction d as [|a d IH]; intros Hd; simpl in *; [done|].
  apply orb_false_iff in Hd as [Ha Hd]. by rewrite Ha, (IH Hd).
Qed.

(** When the reader ends with a data URL, its payload is staged with the
    file's declared media type. *)
Lemma onloadend_stages (st : State) (file : File) (prefix payload : string) :
  occurs "," prefix = false → occurs "," payload = false →
  onloadend file (Some (prefix +:+ String "," payload)) st
  = Some {| input := input st;
            attachment := Some {| Attachment.base64 := Some payload;
                                  Attachment.mimeType := type file |};
            fileInputRef := fileInputRef st;
            textareaRef := textareaRef st;
            alerts := alerts st |}.
Proof.
  intros Hp Hd. unfold onloadend; simpl.
  by rewrite (split_cons _ _ _ Hp), (split_head _ _ Hd).
Qed.

(** C4.  A selected file of exactly 5 MiB (5242880 bytes) is accepted: it
    is handed to the reader and the composer is unchanged.  A file of one
    byte more is rejected: the handler returns normally, no reader is
    started for the file, the staged attachment and the typed text are
    what they were, one notice is raised, and the value of the
    file-selection control is empty; the composer stays usable, a file
    within the limit being accepted afterwards.  In general a file is
    accepted exactly when its size does not exceed [MAX_FILE_SIZE_BYTES]. *)
Theorem size_limit_is_inclusive (st : State) (file : File) (others : list File) :
  (size file = 5242880%N →
   handleFileSelect (Some (file :: others)) st = (st, Some file)) ∧
  (size file = 5242881%N →
   ∃ st',
     handleFileSelect (Some (file :: others)) st = (st', None) ∧
     attachment st' = attachment st ∧
     input st' = input st ∧
     alerts st' = alerts st ++ [too_large_notice] ∧
     (∀ v, fileInputRef st = Some v → fileInputRef st' = Some "") ∧
     (∀ ok, (size ok ≤ MAX_FILE_SIZE_BYTES)%N →
            handleFileSelect (Some [ok]) st' = (st', Some ok))) ∧
  ((handleFileSelect (Some (file :: others)) st).2 = Some file
   ↔ (size file ≤ 5 * 1024 * 1024)%N).
Proof.
  split; [|split].
  - intros Hs. apply handleFileSelect_accepts.
    rewrite Hs, MAX_FILE_SIZE_BYTES_value. lia.
  - intros Hs. eexists. split.
    + apply handleFileSelect_rejects.
      rewrite Hs, MAX_FILE_SIZE_BYTES_value. lia.
    + simpl. do 3 (split; [done|]). split.
      * by intros v ->.
      * intros ok Hok. by apply handleFileSelect_accepts.
  - change (5 * 1024 * 1024)%N with MAX_FILE_SIZE_BYTES.
    destruct (N.le_gt_cases (size file) MAX_FILE_SIZE_BYTES) as [Hle|Hgt].
    + by rewrite (handleFileSelect_accepts _ _ _ Hle).
    + rewrite (handleFileSelect_rejects _ _ _ Hgt); simpl.
      split; [done|lia].
Qed.

Lemma size_limit_is_inclusive_witness :
  handleFileSelect (Some [Samples.file_at_limit]) Samples.composer_with_attachment
  = (Samples.composer_with_attachment, Some Samples.file_at_limit) ∧
  ∃ st',
    handleFileSelect (Some [Samples.file_over_limit])
      Samples.composer_with_attachment = (st', None) ∧
    attachment st' = attachment Samples.composer_with_attachment ∧
    input st' = input Samples.composer_with_attachment ∧
    alerts st' = alerts Samples.composer_with_attachment ++ [too_large_notice] ∧
    (∀ v, fileInputRef Samples.composer_with_attachment = Some v →
          fileInputRef st' = Some "") ∧
    (∀ ok, (size ok ≤ MAX_FILE_SIZE_BYTES)%N →
           handleFileSelect (Some [ok]) st' = (st', Some ok)).
Proof.
  split.
  - apply (size_limit_is_inclusive
             Samples.composer_with_attachment Samples.file_at_limit []).
    reflexivity.
  - apply (size_limit_is_inclusive
             Samples.composer_with_attachment Samples.file_over_limit []).
    reflexivity.
Defined.

(** The rejection on the sample composer, evaluated. *)
Example rejection_keeps_staged_attachment :
  handleFileSelect (Some [Samples.file_over_limit]) Samples.composer_with_attachment
  = ({| input := "";
        attachment := Some {| Attachment.base64 := Some "QUJD";
                              Attachment.mimeType := "image/png" |};
        fileInputRef := Some "";
        textareaRef := Some "auto";
        alerts := ["Файл слишком большой. Максимальный размер: 5MB"] |},
     None).
Proof. reflexivity. Qed.

(** *** The [disabled] prop *)

(** With [disabled] set, [handleSubmit] does not call [onSend] and
    changes nothing. *)
Lemma handleSubmit_disabled (trim : string → string) (st : State) :
  handleSubmit trim true st = (st, None).
Proof. unfold handleSubmit. by rewrite andb_false_r. Qed.

End ChatInputFacts.

(* ===================================================================== *)
(** * Properties of the conversation controller *)
(* ===================================================================== *)

Module AppFacts.
Import Provider App.

(** *** The two cases of the transcript update *)

Lemma splice_after_user (current : Message.t) (prev : SessionState.t)
    (m : Message.t) :
  last (SessionState.messages prev) = Some m →
  Message.role m = USER →
  splice current prev
  = Some {| SessionState.sessionId := SessionState.sessionId prev;
            SessionState.messages := SessionState.messages prev ++ [current];
            SessionState.status := SessionState.status prev |}.
Proof.
  intros Hlast Hrole. unfold splice. rewrite Hlast; simpl.
  by rewrite decide_True.
Qed.

Lemma splice_after_other (current : Message.t) (prev : SessionState.t)
    (pre : list Message.t) (m : Message.t) :
  SessionState.messages prev = pre ++ [m] →
  Message.role m ≠ USER →
  splice current prev
  = Some {| SessionState.sessionId := SessionState.sessionId prev;
            SessionState.messages := pre ++ [current];
            SessionState.status := SessionState.status prev |}.
Proof.
  intros Hmsgs Hrole. unfold splice. rewrite Hmsgs, last_snoc; simpl.
  rewrite decide_False by done. do 2 f_equal.
  rewrite length_app; simpl.
  rewrite insert_app_r_alt by lia.
  replace (length pre + 1 - 1 - length pre) with 0 by lia. done.
Qed.

Lemma with_chunk_twice (msg : Message.t) (c1 c2 : AgentResponse.t) :
  with_chunk (with_chunk msg c1) c2 = with_chunk msg c2.
Proof. reflexivity. Qed.

Lemma role_with_chunk (msg : Message.t) (c : AgentResponse.t) :
  Message.role (with_chunk msg c) = Message.role msg.
Proof. reflexivity. Qed.

(** *** The loop after its first iteration *)

(** Once an assistant message of the turn is the last of the transcript,
    every further yielded object replaces it in place: the transcript
    keeps its length, the status is not written, the services are not
    called. *)
Lemma for_await_rest (stream : list AgentResponse.t) (l : Loop)
    (pre : list Message.t) :
  isFirstChunk l = false →
  Message.role (currentAssistantMsg l) ≠ USER →
  SessionState.messages (sessionState (world l)) = pre ++ [currentAssistantMsg l] →
  ∃ l' new,
    for_await stream l = Some l' ∧
    isFirstChunk l' = false ∧
    currentAssistantMsg l'
    = match last stream with
      | Some c => with_chunk (currentAssistantMsg l) c
      | None => currentAssistantMsg l
      end ∧
    SessionState.messages (sessionState (world l')) = pre ++ [currentAssistantMsg l'] ∧
    SessionState.status (sessionState (world l'))
    = SessionState.status (sessionState (world l)) ∧
    SessionState.sessionId (sessionState (world l'))
    = SessionState.sessionId (sessionState (world l)) ∧
    rendered (world l') = rendered (world l) ++ new ∧
    SessionState.status <$> new
    = replicate (length stream) (SessionState.status (sessionState (world l))) ∧
    sessionService (world l') = sessionService (world l) ∧
    agentRunner (world l') = agentRunner (world l).
Proof.
  revert l. induction stream as [|c stream IH]; intros l Hfirst Hrole Hmsgs.
  { exists l, []. simpl. by rewrite app_nil_r. }
  simpl. unfold loop_body. rewrite Hfirst; simpl.
  unfold setSessionState.
  rewrite (splice_after_other _ _ pre (currentAssistantMsg l) Hmsgs Hrole); simpl.
  match goal with |- context [for_await stream ?l1] => set (l1' := l1) end.
  destruct (IH l1') as (l' & new & Hrun & Hf & Hcur & Hm & Hst & Hid & Hren & Hnew & Hsvc & Hrun');
    [done|done|done|].
  exists l', (sessionState (world l1') :: new).
  split; [done|]. split; [done|]. split.
  { rewrite Hcur, (last_cons c stream). simpl.
    by destruct (last stream). }
  split; [done|]. split; [done|]. split; [done|]. split.
  { rewrite Hren. simpl. by rewrite <- app_assoc. }
  split; [|done].
  by rewrite fmap_cons, Hnew.
Qed.

(** *** The whole loop *)

(** The loop of a turn, entered when the user's message is the last of
    the transcript. *)
Lemma for_await_turn (stream : list AgentResponse.t) (fresh : Fresh)
    (w2 : World) (pre : list Message.t) (u : Message.t) :
  SessionState.messages (sessionState w2) = pre ++ [u] →
  Message.role u = USER →
  ∃ l' new,
    for_await stream
      {| currentAssistantMsg := assistantMsg fresh;
         isFirstChunk := true;
         world := w2 |} = Some l' ∧
    currentAssistantMsg l' = assistant_after fresh stream ∧
    SessionState.messages (sessionState (world l'))
    = pre ++ [u] ++ shown_assistant fresh stream ∧
    SessionState.status (sessionState (world l'))
    = match stream with
      | [] => SessionState.status (sessionState w2)
      | _ => streaming
      end ∧
    SessionState.sessionId (sessionState (world l'))
    = SessionState.sessionId (sessionState w2) ∧
    rendered (world l') = rendered w2 ++ new ∧
    SessionState.status <$> new
    = match stream with
      | [] => []
      | _ => replicate (S (length stream)) streaming
      end ∧
    sessionService (world l') = sessionService w2 ∧
    agentRunner (world l') = agentRunner w2.
Proof.
  intros Hmsgs Hrole. destruct stream as [|c stream].
  { eexists _, []. simpl. rewrite app_nil_r. done. }
  cbn [for_await]. unfold loop_body. cbn [isFirstChunk world currentAssistantMsg].
  unfold setSessionState at 2. cbn [with_status mbind option_bind sessionState].
  unfold setSessionState. cbn [sessionState rendered sessionService agentRunner].
  erewrite splice_after_user;
    [|cbn [SessionState.messages]; rewrite Hmsgs; apply last_snoc|done].
  cbn [mbind option_bind SessionState.messages SessionState.sessionId
       SessionState.status].
  match goal with |- context [for_await stream ?l1] => set (l1' := l1) end.
  destruct (for_await_rest stream l1' (pre ++ [u]))
    as (l' & new & Hrun & _ & Hcur & Hm & Hst & Hid & Hren & Hnew & Hsvc & Hag);
    [done|done|by subst l1'; cbn; rewrite Hmsgs|].
  eexists l', (_ :: _ :: new).
  split; [exact Hrun|]. split.
  { rewrite Hcur. unfold assistant_after. rewrite (last_cons c stream).
    subst l1'. cbn. by destruct (last stream). }
  split.
  { rewrite Hm, Hcur. unfold shown_assistant, assistant_after.
    rewrite (last_cons c stream). subst l1'. cbn.
    rewrite <- app_assoc. by destruct (last stream). }
  split; [by rewrite Hst|]. split; [by rewrite Hid|]. split.
  { rewrite Hren. subst l1'. cbn. by rewrite <- !app_assoc. }
  split; [|done].
  rewrite !fmap_cons, Hnew. subst l1'. done.
Qed.

(** *** Writes to the state cell *)

Lemma setSessionState_with_message (msg : Message.t) (st : Status) (w : World) :
  setSessionState (with_message msg st) w
  = Some {| sessionState :=
              {| SessionState.sessionId := SessionState.sessionId (sessionState w);
                 SessionState.messages :=
                   SessionState.messages (sessionState w) ++ [msg];
                 SessionState.status := st |};
            rendered :=
              rendered w ++
              [{| SessionState.sessionId := SessionState.sessionId (sessionState w);
                  SessionState.messages :=
                    SessionState.messages (sessionState w) ++ [msg];
                  SessionState.status := st |}];
            sessionService := sessionService w;
            agentRunner := agentRunner w |}.
Proof. reflexivity. Qed.

Lemma setSessionState_with_status (st : Status) (w : World) :
  setSessionState (with_status st) w
  = Some {| sessionState :=
              {| SessionState.sessionId := SessionState.sessionId (sessionState w);
                 SessionState.messages := SessionState.messages (sessionState w);
                 SessionState.status := st |};
            rendered :=
              rendered w ++
              [{| SessionState.sessionId := SessionState.sessionId (sessionState w);
                  SessionState.messages := SessionState.messages (sessionState w);
                  SessionState.status := st |}];
            sessionService := sessionService w;
            agentRunner := agentRunner w |}.
Proof. reflexivity. Qed.

(** *** The generator, seen from the controller *)

Section Turn.

Variable SYSTEM_INSTRUCTION : string.

Lemma call_agent_async_eq (r : AgentRunner.t) (sid userInput : string)
    (attachment : option Attachment.t) (reply : Reply) :
  AgentRunner.call_agent_async SYSTEM_INSTRUCTION r sid userInput attachment reply
  = ((AgentRunner.call_agent_async SYSTEM_INSTRUCTION r sid userInput
        attachment reply).1.1,
     AgentRunner.yields AgentRunner.acc0 (AgentRunner.delivered reply),
     AgentRunner.ending reply).
Proof.
  unfold AgentRunner.call_agent_async.
  destruct (AgentRunner.getOrCreateChat _ r sid) as [chat r1].
  by destruct reply.
Qed.

(** A turn hands exactly one message to the provider. *)
Lemma call_agent_async_sent (r : AgentRunner.t) (sid userInput : string)
    (attachment : option Attachment.t) (reply : Reply) :
  sent (AgentRunner.client
          (AgentRunner.call_agent_async SYSTEM_INSTRUCTION r sid userInput
             attachment reply).1.1)
  = sent (AgentRunner.client r)
    ++ [(chat_uid (AgentRunner.getOrCreateChat SYSTEM_INSTRUCTION r sid).1,
         AgentRunner.messageContent userInput attachment)].
Proof.
  unfold AgentRunner.call_agent_async, AgentRunner.getOrCreateChat.
  destruct (AgentRunner.chatSessions r !! sid) as [chat|]; by destruct reply.
Qed.

(** *** A whole turn *)

(** What [handleSendMessage] does in a session that has an identifier:
    it returns, and the transcript, the status, the rendered states, the
    store and the agent client are as follows. *)
Lemma handleSendMessage_spec (fresh : Fresh) (reply : Reply)
    (content : string) (attachment : option Attachment.t) (w : World) :
  SessionState.sessionId (sessionState w) ≠ "" →
  let sid := SessionState.sessionId (sessionState w) in
  let stream := AgentRunner.yields AgentRunner.acc0 (AgentRunner.delivered reply) in
  let e := AgentRunner.ending reply in
  ∃ w' new,
    handleSendMessage SYSTEM_INSTRUCTION fresh reply content attachment w = Some w' ∧
    SessionState.sessionId (sessionState w') = sid ∧
    SessionState.messages (sessionState w')
    = SessionState.messages (sessionState w)
      ++ [userMsg fresh content attachment]
      ++ shown_assistant fresh stream
      ++ match e with Completed => [] | Failed => [errorMsg fresh] end ∧
    SessionState.status (sessionState w') = final_status e ∧
    rendered w' = rendered w ++ new ∧
    SessionState.status <$> new
    = [thinking]
      ++ match stream with
         | [] => []
         | _ => replicate (S (length stream)) streaming
         end
      ++ [final_status e] ∧
    sessionService w'
    = SessionService.addMessage
        (SessionService.addMessage (sessionService w) sid
           (userMsg fresh content attachment))
        sid (persisted_last fresh stream e) ∧
    agentRunner w'
    = (AgentRunner.call_agent_async SYSTEM_INSTRUCTION (agentRunner w) sid
         content attachment reply).1.1.
Proof.
  intros Hsid sid stream e. unfold handleSendMessage.
  rewrite (proj2 (String.eqb_neq _ _) Hsid). fold sid.
  rewrite setSessionState_with_message.
  cbn [mbind option_bind sessionState with_sessionService with_agentRunner
       rendered sessionService agentRunner].
  pose proof (call_agent_async_eq (agentRunner w) sid content attachment reply)
    as Hcall.
  destruct (AgentRunner.call_agent_async SYSTEM_INSTRUCTION (agentRunner w) sid
              content attachment reply) as [[runner stream'] e'].
  cbn [fst snd] in Hcall. inversion Hcall as [[Hs He]].
  fold stream e. clear Hcall Hs He stream' e'.
  match goal with |- context [for_await stream ?l0] =>
    destruct (for_await_turn stream fresh (world l0)
                (SessionState.messages (sessionState w))
                (userMsg fresh content attachment))
      as (l' & new & Hrun & Hcur & Hm & Hst & Hid & Hren & Hnew & Hsvc & Hag);
      [done|done|]
  end.
  cbn [world] in Hrun. rewrite Hrun. cbn [mbind option_bind].
  cbn [world with_agentRunner sessionState rendered sessionService agentRunner
       SessionState.status SessionState.sessionId] in Hst, Hid, Hren, Hnew, Hsvc, Hag.
  destruct e.
  - rewrite setSessionState_with_status.
    eexists _, _.
    split; [reflexivity|].
    cbn [sessionState rendered sessionService agentRunner with_sessionService
         SessionState.sessionId SessionState.messages SessionState.status
         final_status persisted_last].
    split; [done|]. split; [by rewrite Hm, !app_nil_r|]. split; [done|].
    split; [rewrite Hren, <- !app_assoc; reflexivity|]. split.
    { by rewrite fmap_app, fmap_cons, fmap_app, Hnew. }
    split; [by rewrite Hsvc, Hcur|done].
  - rewrite setSessionState_with_message.
    eexists _, _.
    split; [reflexivity|].
    cbn [sessionState rendered sessionService agentRunner with_sessionService
         SessionState.sessionId SessionState.messages SessionState.status
         final_status persisted_last].
    split; [done|]. split; [by rewrite Hm, <- !app_assoc|]. split; [done|].
    split; [rewrite Hren, <- !app_assoc; reflexivity|]. split.
    { by rewrite fmap_app, fmap_cons, fmap_app, Hnew. }
    split; [by rewrite Hsvc|done].
Qed.

Lemma wf_call_agent_async (r : AgentRunner.t) (sid userInput : string)
    (attachment : option Attachment.t) (reply : Reply) :
  AgentRunner.wf r →
  AgentRunner.wf
    (AgentRunner.call_agent_async SYSTEM_INSTRUCTION r sid userInput
       attachment reply).1.1.
Proof.
  intros Hwf.
  pose proof (AgentRunnerFacts.wf_getOrCreateChat SYSTEM_INSTRUCTION r sid Hwf)
    as Hwf1.
  unfold AgentRunner.call_agent_async.
  destruct (AgentRunner.getOrCreateChat _ r sid) as [chat r1].
  by destruct reply.
Qed.

(** *** What a turn leaves behind *)

(** Without a session identifier the handler returns at once. *)
Lemma handleSendMessage_without_session (fresh : Fresh) (reply : Reply)
    (content : string) (attachment : option Attachment.t) (w : World) :
  SessionState.sessionId (sessionState w) = "" →
  handleSendMessage SYSTEM_INSTRUCTION fresh reply content attachment w = Some w.
Proof. intros Hsid. unfold handleSendMessage. by rewrite Hsid. Qed.

(** A turn never throws, and it keeps the disciplines of the store and
    of the handle cache. *)
Lemma handleSendMessage_keeps_wf (fresh : Fresh) (reply : Reply)
    (content : string) (attachment : option Attachment.t) (w : World) :
  SessionService.wf (sessionService w) →
  AgentRunner.wf (agentRunner w) →
  ∃ w',
    handleSendMessage SYSTEM_INSTRUCTION fresh reply content attachment w = Some w' ∧
    SessionService.wf (sessionService w') ∧
    AgentRunner.wf (agentRunner w').
Proof.
  intros Hsvc Hag.
  destruct (decide (SessionState.sessionId (sessionState w) = "")) as [Hsid|Hsid].
  - exists w. by rewrite handleSendMessage_without_session.
  - destruct (handleSendMessage_spec fresh reply content attachment w Hsid)
      as (w' & new & Hrun & _ & _ & _ & _ & _ & Hs & Ha).
    exists w'. split; [done|]. rewrite Hs, Ha. split.
    + auto using SessionServiceFacts.wf_addMessage.
    + by apply wf_call_agent_async.
Qed.

(** The two messages of a turn, read back from the store. *)
Lemma history_after_turn (svc : SessionService.t) (sid : string)
    (m1 m2 : Message.t) :
  SessionService.wf svc →
  SessionService.history
    (SessionService.addMessage (SessionService.addMessage svc sid m1) sid m2) sid
  = SessionService.history svc sid ++ [m1; m2].
Proof.
  intros Hwf.
  rewrite !SessionServiceFacts.history_addMessage_eq
    by auto using SessionServiceFacts.wf_addMessage.
  by rewrite <- app_assoc.
Qed.

(** The text of the last yielded object is the whole text delivered. *)
Lemma last_yield_text (chunks : list GenerateContentResponse)
    (resp : AgentResponse.t) :
  last (AgentRunner.yields AgentRunner.acc0 chunks) = Some resp →
  AgentResponse.text resp = AgentRunner.joined (AgentRunner.chunk_text <$> chunks).
Proof.
  intros Hlast. rewrite last_lookup, AgentRunnerFacts.yields_length in Hlast.
  assert (is_Some (chunks !! pred (length chunks))) as [c Hc].
  { apply lookup_lt_is_Some.
    apply lookup_lt_Some in Hlast.
    rewrite AgentRunnerFacts.yields_length in Hlast. lia. }
  pose proof (AgentRunnerFacts.yields_text AgentRunner.acc0 _ _ _ Hc) as Ht.
  rewrite Hlast in Ht. simpl in Ht. inversion Ht as [Heq]. rewrite Heq.
  rewrite take_ge by lia. apply StringFacts.app_nil_l.
Qed.

Lemma yields_nil (chunks : list GenerateContentResponse) :
  AgentRunner.yields AgentRunner.acc0 chunks = [] ↔ chunks = [].
Proof. destruct chunks; simpl; split; intros; done. Qed.

(** *** Statuses *)

Lemma compress_replicate {A} `{EqDecision A} (n : nat) (x y : A) :
  x ≠ y → compress (x :: replicate n x ++ [y]) = [x; y].
Proof.
  intros Hne. induction n as [|n IH]; simpl in *.
  - by rewrite decide_False.
  - rewrite decide_True by done. exact IH.
Qed.

Lemma compress_cons_ne {A} `{EqDecision A} (x y : A) (l : list A) :
  x ≠ y → compress (x :: y :: l) = x :: compress (y :: l).
Proof. intros Hne. simpl. by rewrite decide_False. Qed.

Lemma disabled_iff (w : World) :
  disabled w = true
  ↔ SessionState.status (sessionState w) = thinking
    ∨ SessionState.status (sessionState w) = streaming.
Proof.
  unfold disabled. rewrite orb_true_iff, !bool_decide_eq_true. done.
Qed.

(** *** The claims about a turn *)

(** C5.  In a session that has an identifier, let the provider fail
    before any chunk: the send throws, or the stream fails at once.  Then
    [handleSendMessage] returns; the transcript is the one before
    followed by the user's message and the error message, and so is the
    session in the store; neither of the two is an assistant message, the
    error message has the system role and the fixed text, and the status
    is "error". *)
Theorem failure_before_first_chunk (fresh : Fresh) (reply : Reply)
    (content : string) (attachment : option Attachment.t) (w : World) :
  SessionState.sessionId (sessionState w) ≠ "" →
  SessionService.wf (sessionService w) →
  AgentRunner.delivered reply = [] →
  AgentRunner.ending reply = Failed →
  ∃ w',
    handleSendMessage SYSTEM_INSTRUCTION fresh reply content attachment w = Some w' ∧
    SessionState.messages (sessionState w')
    = SessionState.messages (sessionState w)
      ++ [userMsg fresh content attachment; errorMsg fresh] ∧
    SessionService.history (sessionService w')
      (SessionState.sessionId (sessionState w))
    = SessionService.history (sessionService w)
        (SessionState.sessionId (sessionState w))
      ++ [userMsg fresh content attachment; errorMsg fresh] ∧
    SessionState.status (sessionState w') = error ∧
    Message.role (userMsg fresh content attachment) = USER ∧
    Message.role (errorMsg fresh) = SYSTEM ∧
    Message.content (errorMsg fresh) = ERROR_TEXT.
Proof.
  intros Hsid Hwf Hnil Hend.
  destruct (handleSendMessage_spec fresh reply content attachment w Hsid)
    as (w' & new & Hrun & _ & Hm & Hst & _ & _ & Hsvc & _).
  rewrite Hnil, Hend in *. simpl in Hm, Hst, Hsvc.
  exists w'. split; [done|]. split; [done|]. split.
  { rewrite Hsvc. by apply history_after_turn. }
  done.
Qed.

(** C6 (as amended).  In a session that has an identifier, let the stream
    fail after it delivered at least one chunk.  Then [handleSendMessage]
    returns, and:
    - the provider received one message for the turn, nothing is sent
      again;
    - the store holds, after what it held, the user's message and the
      error message, and not the partial assistant message;
    - the transcript is the one before followed by the user's message,
      the partial assistant message with the whole text delivered, and
      the error message after it;
    - the status is "error". *)
Theorem mid_stream_failure (fresh : Fresh)
    (chunks : list GenerateContentResponse)
    (content : string) (attachment : option Attachment.t) (w : World) :
  SessionState.sessionId (sessionState w) ≠ "" →
  SessionService.wf (sessionService w) →
  chunks ≠ [] →
  ∃ w' partial,
    handleSendMessage SYSTEM_INSTRUCTION fresh (Streams chunks Failed)
      content attachment w = Some w' ∧
    length (sent (AgentRunner.client (agentRunner w')))
    = S (length (sent (AgentRunner.client (agentRunner w)))) ∧
    SessionService.history (sessionService w')
      (SessionState.sessionId (sessionState w))
    = SessionService.history (sessionService w)
        (SessionState.sessionId (sessionState w))
      ++ [userMsg fresh content attachment; errorMsg fresh] ∧
    SessionState.messages (sessionState w')
    = SessionState.messages (sessionState w)
      ++ [userMsg fresh content attachment; partial; errorMsg fresh] ∧
    Message.id partial = assistantMsgId fresh ∧
    Message.role partial = ASSISTANT ∧
    Message.content partial
    = AgentRunner.joined (AgentRunner.chunk_text <$> chunks) ∧
    SessionState.status (sessionState w') = error.
Proof.
  intros Hsid Hwf Hne.
  destruct (handleSendMessage_spec fresh (Streams chunks Failed)
              content attachment w Hsid)
    as (w' & new & Hrun & _ & Hm & Hst & _ & _ & Hsvc & Hag).
  simpl in Hm, Hst, Hsvc.
  set (stream := AgentRunner.yields AgentRunner.acc0 chunks) in *.
  assert (Hstream : stream ≠ []) by (intros H; by apply yields_nil in H).
  exists w', (assistant_after fresh stream).
  split; [done|]. split.
  { rewrite Hag, call_agent_async_sent, length_app. simpl. lia. }
  split.
  { rewrite Hsvc. by apply history_after_turn. }
  split.
  { rewrite Hm. unfold shown_assistant. by destruct stream. }
  unfold assistant_after.
  destruct (last stream) as [resp|] eqn:Hlast.
  - split; [done|]. split; [done|]. split; [|done].
    simpl. by apply last_yield_text.
  - apply last_is_Some in Hstream. rewrite Hlast in Hstream.
    by destruct Hstream.
Qed.

(** C7 (as amended).  A turn submitted in a session that has an
    identifier, while the composer is enabled, takes the status from its
    starting value to "thinking", then to "streaming" if and only if at
    least one chunk arrived, and last to "idle" when the stream completed
    or to "error" when the send or the stream failed.  The composer is
    disabled exactly while the status is "thinking" or "streaming", and a
    disabled composer does not call [onSend]: a submission then changes
    neither the composer nor the application. *)
Theorem turn_status_path (trim : string → string) (fresh : Fresh)
    (reply : Reply) (content : string) (attachment : option Attachment.t)
    (ci : ChatInput.State) (w : World) :
  (SessionState.sessionId (sessionState w) ≠ "" →
   disabled w = false →
   ∃ w',
     handleSendMessage SYSTEM_INSTRUCTION fresh reply content attachment w = Some w' ∧
     status_path w w'
     = [SessionState.status (sessionState w); thinking]
       ++ match AgentRunner.delivered reply with [] => [] | _ => [streaming] end
       ++ [final_status (AgentRunner.ending reply)] ∧
     (streaming ∈ status_path w w' ↔ AgentRunner.delivered reply ≠ [])) ∧
  (disabled w = true
   ↔ SessionState.status (sessionState w) = thinking
     ∨ SessionState.status (sessionState w) = streaming) ∧
  (disabled w = true →
   ChatInput.handleSubmit trim (disabled w) ci = (ci, None) ∧
   submit SYSTEM_INSTRUCTION trim fresh reply ci w = Some (ci, w)).
Proof.
  split; [|split; [apply disabled_iff|]].
  - intros Hsid Hen.
    assert (Hs0 : SessionState.status (sessionState w) ≠ thinking
                  ∧ SessionState.status (sessionState w) ≠ streaming).
    { split; intros Heq; apply not_true_iff_false in Hen; apply Hen;
        apply disabled_iff; auto. }
    destruct Hs0 as [Hnt Hns].
    destruct (handleSendMessage_spec fresh reply content attachment w Hsid)
      as (w' & new & Hrun & _ & _ & _ & Hren & Hnew & _ & _).
    exists w'. split; [done|].
    assert (Hpath : status_path w w'
      = [SessionState.status (sessionState w); thinking]
        ++ match AgentRunner.delivered reply with [] => [] | _ => [streaming] end
        ++ [final_status (AgentRunner.ending reply)]).
    { unfold status_path. rewrite Hren, drop_app_length, Hnew.
      cbn [app]. rewrite compress_cons_ne by done.
      destruct (AgentRunner.delivered reply) as [|c chunks]; cbn [AgentRunner.yields].
      - cbn [app]. rewrite compress_cons_ne by (by destruct (AgentRunner.ending reply)).
        done.
      - cbn [replicate app]. rewrite compress_cons_ne by done.
        rewrite compress_replicate by (by destruct (AgentRunner.ending reply)).
        done. }
    split; [done|]. rewrite Hpath.
    destruct (AgentRunner.delivered reply) as [|c chunks]; cbn [app].
    + rewrite !elem_of_cons, elem_of_nil.
      split; [|done]. intros [?|[?|[Hf|[]]]]; [done|done|].
      by destruct (AgentRunner.ending reply).
    + rewrite !elem_of_cons. split; [done|]. auto.
  - intros Hdis. rewrite Hdis.
    pose proof (ChatInputFacts.handleSubmit_disabled trim ci) as Hsub.
    split; [done|]. unfold submit. by rewrite Hdis, Hsub.
Qed.

End Turn.

Lemma failure_before_first_chunk_witness :
  ∃ w',
    handleSendMessage "persona" Samples.fresh SendThrows "ping" None
      Samples.world = Some w' ∧
    SessionState.messages (sessionState w')
    = SessionState.messages (sessionState Samples.world)
      ++ [userMsg Samples.fresh "ping" None; errorMsg Samples.fresh] ∧
    SessionService.history (sessionService w')
      (SessionState.sessionId (sessionState Samples.world))
    = SessionService.history (sessionService Samples.world)
        (SessionState.sessionId (sessionState Samples.world))
      ++ [userMsg Samples.fresh "ping" None; errorMsg Samples.fresh] ∧
    SessionState.status (sessionState w') = error ∧
    Message.role (userMsg Samples.fresh "ping" None) = USER ∧
    Message.role (errorMsg Samples.fresh) = SYSTEM ∧
    Message.content (errorMsg Samples.fresh) = ERROR_TEXT.
Proof.
  apply (failure_before_first_chunk "persona" Samples.fresh SendThrows
           "ping" None Samples.world).
  - simpl. discriminate.
  - apply (bool_decide_unpack _); vm_compute; exact I.
  - reflexivity.
  - reflexivity.
Defined.

Lemma mid_stream_failure_witness :
  ∃ w' partial,
    handleSendMessage "persona" Samples.fresh
      (Streams [Samples.text_chunk "Hel"; Samples.text_chunk "lo "] Failed)
      "ping" None Samples.world = Some w' ∧
    length (sent (AgentRunner.client (agentRunner w')))
    = S (length (sent (AgentRunner.client (agentRunner Samples.world)))) ∧
    SessionService.history (sessionService w')
      (SessionState.sessionId (sessionState Samples.world))
    = SessionService.history (sessionService Samples.world)
        (SessionState.sessionId (sessionState Samples.world))
      ++ [userMsg Samples.fresh "ping" None; errorMsg Samples.fresh] ∧
    SessionState.messages (sessionState w')
    = SessionState.messages (sessionState Samples.world)
      ++ [userMsg Samples.fresh "ping" None; partial; errorMsg Samples.fresh] ∧
    Message.id partial = assistantMsgId Samples.fresh ∧
    Message.role partial = ASSISTANT ∧
    Message.content partial
    = AgentRunner.joined
        (AgentRunner.chunk_text
           <$> [Samples.text_chunk "Hel"; Samples.text_chunk "lo "]) ∧
    SessionState.status (sessionState w') = error.
Proof.
  apply (mid_stream_failure "persona" Samples.fresh
           [Samples.text_chunk "Hel"; Samples.text_chunk "lo "]
           "ping" None Samples.world).
  - simpl. discriminate.
  - apply (bool_decide_unpack _); vm_compute; exact I.
  - discriminate.
Defined.

Lemma turn_status_path_witness :
  (∃ w',
     handleSendMessage "persona" Samples.fresh
       (Streams [Samples.text_chunk "Hel"] Completed) "ping" None
       Samples.world = Some w' ∧
     status_path Samples.world w'
     = [SessionState.status (sessionState Samples.world); thinking]
       ++ [streaming] ++ [final_status Completed] ∧
     (streaming ∈ status_path Samples.world w'
      ↔ [Samples.text_chunk "Hel"] ≠ [])) ∧
  (ChatInput.handleSubmit id (disabled Samples.busy_world) Samples.composer
   = (Samples.composer, None) ∧
   submit "persona" id Samples.fresh
     (Streams [Samples.text_chunk "Hel"] Completed)
     Samples.composer Samples.busy_world
   = Some (Samples.composer, Samples.busy_world)).
Proof.
  split.
  - apply (turn_status_path "persona" id Samples.fresh
             (Streams [Samples.text_chunk "Hel"] Completed) "ping" None
             Samples.composer Samples.world).
    + simpl. discriminate.
    + reflexivity.
  - apply (turn_status_path "persona" id Samples.fresh
             (Streams [Samples.text_chunk "Hel"] Completed) "ping" None
             Samples.composer Samples.busy_world).
    reflexivity.
Defined.

(** A stream that fails after its first chunk leaves the partial
    assistant text in the transcript, between the user's message and the
    error message: the error message does not take its place. *)
Lemma partial_text_stays_in_transcript :
  ∃ w',
    handleSendMessage "persona" Samples.fresh
      (Streams [Samples.text_chunk "Hel"] Failed) "ping" None
      Samples.world = Some w' ∧
    Message.content <$> SessionState.messages (sessionState w')
    = ["greeting"; "ping"; "Hel"; ERROR_TEXT] ∧
    Message.role <$> SessionState.messages (sessionState w')
    = [ASSISTANT; USER; ASSISTANT; SYSTEM] ∧
    SessionState.messages (sessionState w')
    ≠ SessionState.messages (sessionState Samples.world)
      ++ [userMsg Samples.fresh "ping" None; errorMsg Samples.fresh].
Proof.
  eexists. split; [vm_compute; reflexivity|].
  split; [reflexivity|]. split; [reflexivity|].
  vm_compute. discriminate.
Qed.

(** A stream that fails after its first chunk goes through "streaming"
    before "error": its path is neither of the two of the informal state
    machine. *)
Lemma failure_after_first_chunk_passes_streaming :
  ∃ w',
    handleSendMessage "persona" Samples.fresh
      (Streams [Samples.text_chunk "Hel"] Failed) "ping" None
      Samples.world = Some w' ∧
    status_path Samples.world w' = [idle; thinking; streaming; error] ∧
    status_path Samples.world w' ≠ [idle; thinking; streaming; idle] ∧
    status_path Samples.world w' ≠ [idle; thinking; error].
Proof.
  eexists. split; [vm_compute; reflexivity|].
  split; [reflexivity|]. split; vm_compute; discriminate.
Qed.

(** A stream that completes without a chunk never enters "streaming",
    and the store then receives an assistant message with no text that
    the transcript does not show. *)
Example completion_without_chunk :
  ∃ w',
    handleSendMessage "persona" Samples.fresh (Streams [] Completed) "ping"
      None Samples.world = Some w' ∧
    status_path Samples.world w' = [idle; thinking; idle] ∧
    Message.content <$> SessionState.messages (sessionState w')
    = ["greeting"; "ping"] ∧
    Message.content <$> SessionService.history (sessionService w') "s1"
    = ["greeting"; "ping"; ""].
Proof.
  eexists. split; [vm_compute; reflexivity|].
  split; [reflexivity|]. split; reflexivity.
Qed.

End AppFacts.

(* ===================================================================== *)
(** * Further properties of the session store *)
(* ===================================================================== *)

Module SessionServiceExtra.
Import SessionService SessionServiceFacts.

Lemma history_createSession_eq (uuid : string) (s : t) :
  history (createSession uuid s).2 uuid = [].
Proof.
  rewrite history_spec; simpl. rewrite lookup_insert_eq.
  unfold deref; simpl. by rewrite lookup_app_r, Nat.sub_diag by lia.
Qed.

Lemma run_app (ops1 ops2 : list Op) (s : t) :
  run (ops1 ++ ops2) s = run ops2 (run ops1 s).
Proof. unfold run. apply fold_left_app. Qed.

(** An operation that resets a session leaves it empty. *)
Lemma history_reset (s : t) (sid : string) (o : Op) :
  resets sid o = true → history (step s o) sid = [].
Proof.
  destruct o as [uuid|sid' m|sid']; simpl; intros Hr; [|done|].
  - apply bool_decide_eq_true in Hr as ->. apply history_createSession_eq.
  - apply bool_decide_eq_true in Hr as ->. apply history_clearSession_eq.
Qed.

(** X1.  [createSession], with [uuid] the identifier drawn, returns [uuid]
    and registers it with an empty history, also when the identifier was
    already in use: what that session held is dropped.  Every other
    session reads as before, and the first message added to the new
    session is its only one. *)
Theorem createSession_registers_empty_session (uuid : string) (s : t) :
  wf s →
  (createSession uuid s).1 = uuid ∧
  is_Some (sessions (createSession uuid s).2 !! uuid) ∧
  history (createSession uuid s).2 uuid = [] ∧
  (∀ sid', uuid ≠ sid' →
     history (createSession uuid s).2 sid' = history s sid') ∧
  (∀ m, history (addMessage (createSession uuid s).2 uuid m) uuid = [m]).
Proof.
  intros Hwf. split; [done|]. split.
  { simpl. rewrite lookup_insert_eq. by eexists. }
  split; [apply history_createSession_eq|]. split.
  - intros sid' Hne. by apply history_createSession_ne.
  - intros m. rewrite history_addMessage_eq by by apply wf_createSession.
    by rewrite history_createSession_eq.
Qed.

Lemma createSession_registers_empty_session_witness :
  (createSession "s1" Samples.store).1 = "s1" ∧
  is_Some (sessions (createSession "s1" Samples.store).2 !! "s1") ∧
  history (createSession "s1" Samples.store).2 "s1" = [] ∧
  (∀ sid', "s1" ≠ sid' →
     history (createSession "s1" Samples.store).2 sid'
     = history Samples.store sid') ∧
  (∀ m, history (addMessage (createSession "s1" Samples.store).2 "s1" m) "s1"
        = [m]).
Proof.
  apply (createSession_registers_empty_session "s1" Samples.store).
  apply (bool_decide_unpack _); vm_compute; exact I.
Defined.

(** [getHistory] on a known and on an unknown identifier. *)
Lemma getHistory_known (s : t) (sid : string) (r : ref) :
  sessions s !! sid = Some r → getHistory s sid = (r, s).
Proof. intros Hs. unfold getHistory. by rewrite Hs. Qed.

Lemma getHistory_unknown (s : t) (sid : string) :
  sessions s !! sid = None → getHistory s sid = alloc s.
Proof. intros Hs. unfold getHistory. by rewrite Hs. Qed.

(** An array that no identifier holds changes no session. *)
Lemma history_alloc (s : t) (sid' : string) :
  wf s → history (alloc s).2 sid' = history s sid'.
Proof.
  intros Hwf. rewrite !history_spec; simpl.
  destruct (sessions s !! sid') as [r'|] eqn:Hs'; [|done].
  unfold deref; simpl. rewrite lookup_app_l; [done|].
  eauto using wf_bound.
Qed.

Lemma wf_alloc (s : t) : wf s → wf (alloc s).2.
Proof.
  intros Hwf. apply wf_intro; simpl.
  - intros sid0 r0 H0. rewrite length_app; simpl.
    pose proof (wf_bound _ _ _ Hwf H0). lia.
  - intros. eauto using wf_inj.
Qed.

(** X2.  [getHistory] only reads: it registers no identifier, not even
    the unknown one it is asked for, and after it every session reads as
    before. *)
Theorem getHistory_changes_no_session (s : t) (sid sid' : string) :
  wf s →
  sessions (getHistory s sid).2 = sessions s ∧
  history (getHistory s sid).2 sid' = history s sid' ∧
  wf (getHistory s sid).2.
Proof.
  intros Hwf.
  destruct (sessions s !! sid) as [r|] eqn:Hs.
  - by rewrite (getHistory_known _ _ _ Hs).
  - rewrite (getHistory_unknown _ _ Hs).
    split; [done|]. split.
    + by apply history_alloc.
    + by apply wf_alloc.
Qed.

Lemma getHistory_changes_no_session_witness :
  sessions (getHistory Samples.store "s3").2 = sessions Samples.store ∧
  history (getHistory Samples.store "s3").2 "s3" = history Samples.store "s3" ∧
  wf (getHistory Samples.store "s3").2.
Proof.
  apply (getHistory_changes_no_session Samples.store "s3" "s3").
  apply (bool_decide_unpack _); vm_compute; exact I.
Defined.

(** X3.  For a known session [getHistory] hands out the store's own
    array, not a copy: a message added afterwards shows in the array
    handed out before, and the session keeps that array.  For an unknown
    session it hands out a new array that the store does not keep: the
    array is empty and stays empty when a message is added to the
    session afterwards. *)
Theorem getHistory_hands_out_the_stored_array
    (s : t) (sid : string) (m : Message.t) :
  wf s →
  (∀ r, sessions s !! sid = Some r →
        getHistory s sid = (r, s) ∧
        deref (addMessage s sid m) r = deref s r ++ [m] ∧
        sessions (addMessage s sid m) !! sid = Some r) ∧
  (sessions s !! sid = None →
   deref (getHistory s sid).2 (getHistory s sid).1 = [] ∧
   deref (addMessage (getHistory s sid).2 sid m) (getHistory s sid).1 = [] ∧
   history (addMessage (getHistory s sid).2 sid m) sid = [m]).
Proof.
  intros Hwf. split.
  - intros r Hs. split; [unfold getHistory; by rewrite Hs|].
    rewrite (addMessage_known _ _ _ _ Hs); simpl.
    rewrite lookup_insert_eq. split; [|done].
    unfold deref at 1; simpl.
    by rewrite list_lookup_insert_eq by eauto using wf_bound.
  - intros Hs.
    pose proof (getHistory_unknown _ _ Hs) as Hg.
    assert (Hwf' : wf (getHistory s sid).2)
      by (rewrite Hg; by apply wf_alloc).
    assert (Hh : history (getHistory s sid).2 sid = history s sid)
      by (rewrite Hg; by apply history_alloc).
    assert (Hs' : sessions (getHistory s sid).2 !! sid = None)
      by (by rewrite Hg).
    split; [rewrite Hg; apply deref_alloc|]. split.
    + rewrite (addMessage_unknown _ _ _ Hs'), Hg.
      unfold deref, alloc; simpl.
      rewrite lookup_app_l by (rewrite length_app; simpl; lia).
      by rewrite lookup_app_r, Nat.sub_diag by lia.
    + rewrite history_addMessage_eq by done.
      by rewrite Hh, history_spec, Hs.
Qed.

Lemma getHistory_hands_out_the_stored_array_witness :
  (getHistory Samples.store "s1" = (0, Samples.store) ∧
   deref (addMessage Samples.store "s1" (Samples.message USER "a")) 0
   = deref Samples.store 0 ++ [Samples.message USER "a"] ∧
   sessions (addMessage Samples.store "s1" (Samples.message USER "a")) !! "s1"
   = Some 0) ∧
  (deref (getHistory Samples.store "s3").2 (getHistory Samples.store "s3").1 = [] ∧
   deref (addMessage (getHistory Samples.store "s3").2 "s3"
            (Samples.message USER "a"))
     (getHistory Samples.store "s3").1 = [] ∧
   history (addMessage (getHistory Samples.store "s3").2 "s3"
              (Samples.message USER "a")) "s3"
   = [Samples.message USER "a"]).
Proof.
  assert (Hwf : wf Samples.store)
    by (apply (bool_decide_unpack _); vm_compute; exact I).
  split.
  - apply (getHistory_hands_out_the_stored_array Samples.store "s1"
             (Samples.message USER "a") Hwf).
    vm_compute. reflexivity.
  - apply (getHistory_hands_out_the_stored_array Samples.store "s3"
             (Samples.message USER "a") Hwf).
    vm_compute. reflexivity.
Defined.

(** X4.  [clearSession] on an identifier that is not registered leaves
    the service exactly as it was, so clearing a session twice is
    clearing it once. *)
Theorem clearSession_unknown_is_noop (s : t) (sid : string) :
  (sessions s !! sid = None → clearSession s sid = s) ∧
  clearSession (clearSession s sid) sid = clearSession s sid.
Proof.
  assert (Hnoop : ∀ s', sessions s' !! sid = None → clearSession s' sid = s').
  { intros [a m] Hs. unfold clearSession; simpl in *. by rewrite delete_id. }
  split; [apply Hnoop|]. apply Hnoop. simpl. apply lookup_delete_eq.
Qed.

Lemma clearSession_unknown_is_noop_witness :
  clearSession Samples.store "s3" = Samples.store.
Proof.
  apply (proj1 (clearSession_unknown_is_noop Samples.store "s3")).
  vm_compute. reflexivity.
Defined.

(** X5.  After any sequence of calls, a session holds exactly the
    messages added to it since it was last cleared or created: what came
    before the reset, in this session or elsewhere, does not matter. *)
Theorem history_is_what_was_added_since_last_reset
    (before after : list Op) (o : Op) (s : t) (sid : string) :
  wf s →
  resets sid o = true →
  forallb (fun o' => negb (resets sid o')) after = true →
  history (run (before ++ o :: after) s) sid = added sid after.
Proof.
  intros Hwf Hr Hafter.
  rewrite run_app.
  change (run (o :: after) (run before s))
    with (run after (step (run before s) o)).
  rewrite history_run by auto using wf_step, wf_run.
  by rewrite history_reset.
Qed.

Lemma history_is_what_was_added_since_last_reset_witness :
  history
    (run ([OpAdd "s1" (Samples.message USER "old")]
          ++ OpClear "s1" :: Samples.calls) Samples.store) "s1"
  = added "s1" Samples.calls.
Proof.
  apply (history_is_what_was_added_since_last_reset
           [OpAdd "s1" (Samples.message USER "old")] Samples.calls
           (OpClear "s1") Samples.store "s1").
  - apply (bool_decide_unpack _); vm_compute; exact I.
  - reflexivity.
  - reflexivity.
Defined.

(** X6.  Whatever calls are made on a new service, no two identifiers
    ever hold the same array, and every identifier holds an array that
    exists: a [push] on one session's array cannot reach another
    session. *)
Theorem sessions_never_share_an_array
    (ops : list Op) (sid1 sid2 : string) (r : ref) :
  sessions (run ops empty) !! sid1 = Some r →
  (r < length (arrays (run ops empty))) ∧
  (sessions (run ops empty) !! sid2 = Some r → sid1 = sid2).
Proof.
  intros H1. pose proof (reachable_wf ops) as Hwf. split.
  - eauto using wf_bound.
  - intros H2. eauto using wf_inj.
Qed.

Lemma sessions_never_share_an_array_witness :
  (0 < length (arrays (run [OpAdd "s1" (Samples.message USER "a");
                            OpAdd "s2" (Samples.message USER "b")] empty))) ∧
  (sessions (run [OpAdd "s1" (Samples.message USER "a");
                  OpAdd "s2" (Samples.message USER "b")] empty) !! "s2"
   = Some 0 → "s1" = "s2").
Proof.
  apply (sessions_never_share_an_array
           [OpAdd "s1" (Samples.message USER "a");
            OpAdd "s2" (Samples.message USER "b")] "s1" "s2" 0).
  vm_compute. reflexivity.
Defined.

End SessionServiceExtra.

(* ===================================================================== *)
(** * Further properties of the agent client *)
(* ===================================================================== *)

Module AgentRunnerExtra.
Import Provider AgentRunner AgentRunnerFacts.

(** *** The citation list *)

Lemma existsb_same_uri (collected : list GroundingChunk.t)
    (gc wc : GroundingChunk.t) :
  gc ∈ collected → web_uri gc = web_uri wc →
  existsb (fun gc' => bool_decide (web_uri gc' = web_uri wc)) collected = true.
Proof.
  intros Hgc Heq. apply existsb_exists. exists gc.
  split; [by apply list_elem_of_In|by apply bool_decide_eq_true].
Qed.

Lemma push_all_sublist (entries collected : list GroundingChunk.t) :
  fold_left push_new entries collected `sublist_of` collected ++ entries.
Proof.
  revert collected.
  induction entries as [|wc entries IH]; intros collected; simpl.
  { by rewrite app_nil_r. }
  etrans; [apply IH|]. unfold push_new.
  destruct (existsb _ collected).
  - apply sublist_app; [done|]. by apply sublist_cons.
  - by rewrite <- app_assoc.
Qed.

Lemma push_all_covers (entries collected : list GroundingChunk.t)
    (gc : GroundingChunk.t) :
  gc ∈ collected ++ entries →
  ∃ gc', gc' ∈ fold_left push_new entries collected ∧ web_uri gc' = web_uri gc.
Proof.
  revert collected gc.
  induction entries as [|wc entries IH]; intros collected gc Hgc; simpl.
  { rewrite app_nil_r in Hgc. by exists gc. }
  apply elem_of_app in Hgc as [Hgc|Hgc];
    [|apply elem_of_cons in Hgc as [->|Hgc]].
  - apply IH, elem_of_app. left. unfold push_new.
    destruct (existsb _ collected); [done|]. apply elem_of_app. by left.
  - unfold push_new.
    destruct (existsb _ collected) eqn:He.
    + apply existsb_exists in He as (gc0 & Hgc0 & Heq).
      apply bool_decide_eq_true in Heq. apply list_elem_of_In in Hgc0.
      destruct (IH collected gc0) as (gc' & Hin & Hu).
      { apply elem_of_app. by left. }
      exists gc'. split; [done|]. by rewrite Hu.
    + apply IH, elem_of_app. left. apply elem_of_app. right.
      by apply list_elem_of_singleton.
  - apply IH, elem_of_app. by right.
Qed.

Lemma push_all_absorbs (entries collected : list GroundingChunk.t) :
  (∀ wc, wc ∈ entries → ∃ gc, gc ∈ collected ∧ web_uri gc = web_uri wc) →
  fold_left push_new entries collected = collected.
Proof.
  induction entries as [|wc entries IH]; intros Hall; simpl; [done|].
  destruct (Hall wc) as (gc & Hgc & Heq); [by left|].
  unfold push_new at 2. rewrite (existsb_same_uri _ _ _ Hgc Heq).
  apply IH. intros wc' Hwc'. apply Hall. by right.
Qed.

Lemma arrived_app (chunks1 chunks2 : list GenerateContentResponse) :
  arrived (chunks1 ++ chunks2) = arrived chunks1 ++ arrived chunks2.
Proof. unfold arrived. by rewrite fmap_app, concat_app. Qed.

Lemma webChunks_have_web (c : GenerateContentResponse) (gc : GroundingChunk.t) :
  gc ∈ webChunks c → is_Some (GroundingChunk.web gc).
Proof.
  unfold webChunks. destruct (_ ≫= _) as [gcs|]; [|by intros ?%elem_of_nil].
  by intros [? _]%list_elem_of_filter.
Qed.

Lemma arrived_have_web (chunks : list GenerateContentResponse)
    (gc : GroundingChunk.t) :
  gc ∈ arrived chunks → is_Some (GroundingChunk.web gc).
Proof.
  unfold arrived. intros Hgc.
  apply list_elem_of_In, in_concat in Hgc as (l & Hl & Hgc).
  apply list_elem_of_In, list_elem_of_fmap in Hl as (c & -> & _).
  apply list_elem_of_In in Hgc. by eapply webChunks_have_web.
Qed.

Lemma accumulatedText_fold (chunks : list GenerateContentResponse) (acc : Acc) :
  accumulatedText (fold_left consume chunks acc)
  = accumulatedText acc +:+ joined (chunk_text <$> chunks).
Proof.
  revert acc. induction chunks as [|c chunks IH]; intros acc; simpl.
  - unfold joined; simpl. by rewrite StringFacts.app_nil_r.
  - rewrite IH; simpl. unfold joined, chunk_text; simpl.
    by rewrite StringFacts.app_assoc.
Qed.

(** The citation list of a yielded object, when there is one. *)
Lemma yielded_citations (chunks : list GenerateContentResponse) (k : nat)
    (resp : AgentResponse.t) (cites : list GroundingChunk.t) :
  yields acc0 chunks !! k = Some resp →
  AgentResponse.groundingChunks resp = Some cites →
  cites = fold_left push_new (arrived (take (S k) chunks)) [].
Proof.
  intros Hk Hc. apply yields_lookup_inv in Hk as ->.
  rewrite snapshot_groundingChunks, groundingChunks_fold in Hc. simpl in Hc.
  destruct (fold_left push_new _ []); by inversion Hc.
Qed.

(** X11.  The citation list of a yielded object holds nothing but web
    entries that have arrived so far, in their order of arrival, and it
    leaves out no source: every web entry that has arrived has its URI in
    the list. *)
Theorem citations_are_the_sources_that_arrived
    (chunks : list GenerateContentResponse) (k : nat)
    (resp : AgentResponse.t) (cites : list GroundingChunk.t) :
  yields acc0 chunks !! k = Some resp →
  AgentResponse.groundingChunks resp = Some cites →
  cites `sublist_of` arrived (take (S k) chunks) ∧
  (∀ gc, gc ∈ cites →
         gc ∈ arrived (take (S k) chunks) ∧ is_Some (GroundingChunk.web gc)) ∧
  (∀ gc, gc ∈ arrived (take (S k) chunks) →
         ∃ gc', gc' ∈ cites ∧ web_uri gc' = web_uri gc).
Proof.
  intros Hk Hc. rewrite (yielded_citations _ _ _ _ Hk Hc).
  pose proof (push_all_sublist (arrived (take (S k) chunks)) []) as Hsub.
  simpl in Hsub. split; [done|]. split.
  - intros gc Hgc.
    assert (Hin : gc ∈ arrived (take (S k) chunks))
      by (by eapply sublist_subseteq).
    split; [done|]. by eapply arrived_have_web.
  - intros gc Hgc. by apply push_all_covers.
Qed.

Lemma citations_are_the_sources_that_arrived_witness :
  [Samples.web_entry "https://a.example" "First title";
   Samples.web_entry "https://b.example" "Other"]
    `sublist_of` arrived (take 3 Samples.cited_stream) ∧
  (∀ gc, gc ∈ [Samples.web_entry "https://a.example" "First title";
               Samples.web_entry "https://b.example" "Other"] →
         gc ∈ arrived (take 3 Samples.cited_stream)
         ∧ is_Some (GroundingChunk.web gc)) ∧
  (∀ gc, gc ∈ arrived (take 3 Samples.cited_stream) →
         ∃ gc', gc' ∈ [Samples.web_entry "https://a.example" "First title";
                       Samples.web_entry "https://b.example" "Other"]
                ∧ web_uri gc' = web_uri gc).
Proof.
  apply (citations_are_the_sources_that_arrived Samples.cited_stream 2
           {| AgentResponse.text := "Hello World";
              AgentResponse.groundingChunks :=
                Some [Samples.web_entry "https://a.example" "First title";
                      Samples.web_entry "https://b.example" "Other"] |}).
  - reflexivity.
  - reflexivity.
Defined.

(** X12.  Yielded objects only grow: the text of an earlier one is the
    beginning of the text of every later one, and when the earlier one
    has a citation list, the later one has one that starts with it.  No
    citation is dropped, replaced or moved. *)
Theorem later_snapshot_extends_earlier
    (chunks : list GenerateContentResponse) (k k' : nat)
    (a b : AgentResponse.t) :
  (k ≤ k')%nat →
  yields acc0 chunks !! k = Some a →
  yields acc0 chunks !! k' = Some b →
  (∃ d, AgentResponse.text b = AgentResponse.text a +:+ d) ∧
  (∀ la, AgentResponse.groundingChunks a = Some la →
         ∃ lb, AgentResponse.groundingChunks b = Some lb ∧ la `prefix_of` lb).
Proof.
  intros Hle Ha Hb.
  apply yields_lookup_inv in Ha as ->. apply yields_lookup_inv in Hb as ->.
  assert (Hsplit : take (S k') chunks
                   = take (S k) chunks ++ take (k' - k) (drop (S k) chunks)).
  { rewrite take_take_drop. f_equal. lia. }
  rewrite Hsplit, fold_left_app.
  set (acc := fold_left consume (take (S k) chunks) acc0).
  set (rest := take (k' - k) (drop (S k) chunks)).
  split.
  - exists (joined (chunk_text <$> rest)). simpl.
    apply accumulatedText_fold.
  - intros la Hla.
    rewrite snapshot_groundingChunks in Hla |- *.
    rewrite (groundingChunks_fold rest acc).
    pose proof (push_all_prefix (arrived rest) (groundingChunks acc)) as Hpre.
    destruct (groundingChunks acc) as [|gc l] eqn:Hacc; [done|].
    inversion Hla; subst la.
    destruct (fold_left push_new _ (gc :: l)) as [|gc' l'] eqn:Hfold.
    + by apply prefix_nil_not in Hpre.
    + by eexists.
Qed.

Lemma later_snapshot_extends_earlier_witness :
  (∃ d, "Hello World" = "Hel" +:+ d) ∧
  (∀ la, Some [Samples.web_entry "https://a.example" "First title"] = Some la →
         ∃ lb, Some [Samples.web_entry "https://a.example" "First title";
                     Samples.web_entry "https://b.example" "Other"] = Some lb
               ∧ la `prefix_of` lb).
Proof.
  apply (later_snapshot_extends_earlier Samples.cited_stream 0 2
           {| AgentResponse.text := "Hel";
              AgentResponse.groundingChunks :=
                Some [Samples.web_entry "https://a.example" "First title"] |}
           {| AgentResponse.text := "Hello World";
              AgentResponse.groundingChunks :=
                Some [Samples.web_entry "https://a.example" "First title";
                      Samples.web_entry "https://b.example" "Other"] |}).
  - lia.
  - reflexivity.
  - reflexivity.
Defined.

(** X13.  A chunk whose web entries all carry URIs that arrived before
    changes no citation: a provider that repeats its grounding metadata
    in every chunk gets each source cited once. *)
Theorem repeated_sources_add_nothing
    (chunks : list GenerateContentResponse) (c : GenerateContentResponse) :
  chunks ≠ [] →
  (∀ wc, wc ∈ webChunks c →
         ∃ gc, gc ∈ arrived chunks ∧ web_uri gc = web_uri wc) →
  ∃ a b,
    last (yields acc0 chunks) = Some a ∧
    last (yields acc0 (chunks ++ [c])) = Some b ∧
    AgentResponse.groundingChunks b = AgentResponse.groundingChunks a ∧
    AgentResponse.text b = AgentResponse.text a +:+ chunk_text c.
Proof.
  intros Hne Hall.
  exists (snapshot (fold_left consume chunks acc0)),
         (snapshot (fold_left consume (chunks ++ [c]) acc0)).
  split; [by apply yields_last|]. split.
  { apply yields_last. by destruct chunks. }
  rewrite fold_left_app. cbn [fold_left].
  set (acc := fold_left consume chunks acc0).
  assert (Hsame : groundingChunks (consume acc c) = groundingChunks acc).
  { cbn [consume groundingChunks]. apply push_all_absorbs.
    intros wc Hwc. destruct (Hall wc Hwc) as (gc & Hgc & Heq).
    unfold acc. rewrite groundingChunks_fold. cbn [acc0 groundingChunks].
    destruct (push_all_covers (arrived chunks) [] gc Hgc) as (gc' & Hin & Hu).
    exists gc'. split; [done|]. by rewrite Hu. }
  split; [|done]. by rewrite !snapshot_groundingChunks, Hsame.
Qed.

Lemma repeated_sources_add_nothing_witness :
  ∃ a b,
    last (yields acc0 Samples.cited_stream) = Some a ∧
    last (yields acc0
            (Samples.cited_stream
             ++ [Samples.grounded_chunk "!"
                   [Samples.web_entry "https://b.example" "Again"]]))
    = Some b ∧
    AgentResponse.groundingChunks b = AgentResponse.groundingChunks a ∧
    AgentResponse.text b
    = AgentResponse.text a
      +:+ chunk_text (Samples.grounded_chunk "!"
                        [Samples.web_entry "https://b.example" "Again"]).
Proof.
  apply (repeated_sources_add_nothing Samples.cited_stream
           (Samples.grounded_chunk "!"
              [Samples.web_entry "https://b.example" "Again"])).
  - discriminate.
  - intros wc Hwc. apply list_elem_of_singleton in Hwc as ->.
    exists (Samples.web_entry "https://b.example" "Other").
    split; [|reflexivity].
    apply (bool_decide_unpack _); vm_compute; exact I.
Defined.

(** *** The handle cache over turns *)

Section Turns.

Variable SYSTEM_INSTRUCTION : string.

Lemma getOrCreateChat_lookup (r : t) (sid : string) :
  chatSessions (getOrCreateChat SYSTEM_INSTRUCTION r sid).2 !! sid
  = Some (getOrCreateChat SYSTEM_INSTRUCTION r sid).1.
Proof.
  destruct (chatSessions r !! sid) as [chat|] eqn:Hs.
  - by rewrite (getOrCreateChat_known _ _ _ _ Hs).
  - rewrite (getOrCreateChat_unknown _ _ _ Hs); simpl.
    by rewrite lookup_insert_eq.
Qed.

Lemma getOrCreateChat_lookup_ne (r : t) (sid sid' : string) :
  sid ≠ sid' →
  chatSessions (getOrCreateChat SYSTEM_INSTRUCTION r sid).2 !! sid'
  = chatSessions r !! sid'.
Proof.
  intros Hne. destruct (chatSessions r !! sid) as [chat|] eqn:Hs.
  - by rewrite (getOrCreateChat_known _ _ _ _ Hs).
  - rewrite (getOrCreateChat_unknown _ _ _ Hs); simpl.
    by rewrite lookup_insert_ne.
Qed.

Lemma getOrCreateChat_created (r : t) (sid : string) :
  (created (client r)
   ≤ created (client (getOrCreateChat SYSTEM_INSTRUCTION r sid).2))%nat
  ∧ sent (client (getOrCreateChat SYSTEM_INSTRUCTION r sid).2) = sent (client r).
Proof.
  destruct (chatSessions r !! sid) as [chat|] eqn:Hs.
  - by rewrite (getOrCreateChat_known _ _ _ _ Hs).
  - rewrite (getOrCreateChat_unknown _ _ _ Hs); simpl. split; [lia|done].
Qed.

(** The service after a call of the generator. *)
Lemma call_agent_async_runner (r : t) (sid userInput : string)
    (attachment : option Attachment.t) (reply : Reply) :
  (call_agent_async SYSTEM_INSTRUCTION r sid userInput attachment reply).1.1
  = {| client :=
         {| created :=
              created (client (getOrCreateChat SYSTEM_INSTRUCTION r sid).2);
            sent :=
              sent (client (getOrCreateChat SYSTEM_INSTRUCTION r sid).2)
              ++ [(chat_uid (getOrCreateChat SYSTEM_INSTRUCTION r sid).1,
                   messageContent userInput attachment)] |};
       chatSessions :=
         chatSessions (getOrCreateChat SYSTEM_INSTRUCTION r sid).2 |}.
Proof.
  unfold call_agent_async.
  destruct (getOrCreateChat _ r sid) as [chat r1]. by destruct reply.
Qed.

Lemma wf_after_call (r : t) (sid userInput : string)
    (attachment : option Attachment.t) (reply : Reply) :
  wf r →
  wf (call_agent_async SYSTEM_INSTRUCTION r sid userInput attachment reply).1.1.
Proof.
  intros Hwf. rewrite call_agent_async_runner.
  exact (wf_getOrCreateChat SYSTEM_INSTRUCTION r sid Hwf).
Qed.

Lemma sent_wf_after_call (r : t) (sid userInput : string)
    (attachment : option Attachment.t) (reply : Reply) :
  wf r → sent_wf r →
  sent_wf (call_agent_async SYSTEM_INSTRUCTION r sid userInput attachment reply).1.1.
Proof.
  intros Hwf Hsent. rewrite call_agent_async_runner. unfold sent_wf; simpl.
  destruct (getOrCreateChat_created r sid) as [Hle Hs]. rewrite Hs.
  apply Forall_app. split.
  - eapply Forall_impl; [exact Hsent|]. simpl. intros entry Hlt. lia.
  - apply Forall_singleton. simpl.
    apply (wf_uid_bound _ sid _ (wf_getOrCreateChat SYSTEM_INSTRUCTION r sid Hwf)).
    apply getOrCreateChat_lookup.
Qed.

(** X7.  What is handed to the provider for a turn: without an attachment
    the user's text as it is, even when it is empty; with an attachment a
    text part followed by the inline data of the attachment, and this
    text part is never empty: it is the user's text when there is some
    and the fixed prompt otherwise. *)
Theorem payload_of_a_turn (userInput : string) (a : Attachment.t) :
  messageContent userInput None = Plain userInput ∧
  ∃ t,
    messageContent userInput (Some a)
    = Parts [TextPart t;
             InlineData (Attachment.mimeType a) (Attachment.base64 a)] ∧
    t ≠ "" ∧
    (userInput ≠ "" → t = userInput) ∧
    (userInput = "" → t = "Проанализируй этот документ/изображение.").
Proof.
  split; [done|]. unfold messageContent.
  destruct (String.eqb userInput "") eqn:He.
  - apply String.eqb_eq in He. eexists. split; [done|].
    split; [done|]. split; [done|done].
  - apply String.eqb_neq in He. eexists. split; [done|].
    split; [done|]. split; [done|]. by intros ->.
Qed.

Lemma payload_of_a_turn_witness :
  ∃ t,
    messageContent ""
      (Some {| Attachment.base64 := Some "QUJD";
               Attachment.mimeType := "image/png" |})
    = Parts [TextPart t; InlineData "image/png" (Some "QUJD")] ∧
    t = "Проанализируй этот документ/изображение.".
Proof.
  destruct (payload_of_a_turn ""
              {| Attachment.base64 := Some "QUJD";
                 Attachment.mimeType := "image/png" |})
    as (_ & t & Heq & _ & _ & Hdefault).
  exists t. split; [exact Heq|]. apply Hdefault. reflexivity.
Defined.

(** X8.  Two turns in a row are sent on the same chat when they belong to
    the same session, so the provider sees one conversation, and on two
    different chats when they belong to different sessions. *)
Theorem session_turns_share_one_chat (r : t) (sid sid' : string)
    (input1 input2 : string) (att1 att2 : option Attachment.t)
    (reply1 reply2 : Reply) :
  wf r →
  ∃ c1 c2,
    sent (client
            (call_agent_async SYSTEM_INSTRUCTION
               (call_agent_async SYSTEM_INSTRUCTION r sid input1 att1 reply1).1.1
               sid' input2 att2 reply2).1.1)
    = sent (client r)
      ++ [(c1, messageContent input1 att1); (c2, messageContent input2 att2)] ∧
    (sid = sid' → c1 = c2) ∧
    (sid ≠ sid' → c1 ≠ c2).
Proof.
  intros Hwf.
  set (r1 := (call_agent_async SYSTEM_INSTRUCTION r sid input1 att1 reply1).1.1).
  assert (Hwf1 : wf r1) by by apply wf_after_call.
  assert (Hr1 : chatSessions r1 !! sid
                = Some (getOrCreateChat SYSTEM_INSTRUCTION r sid).1).
  { unfold r1. rewrite call_agent_async_runner. simpl.
    apply getOrCreateChat_lookup. }
  assert (Hs1 : sent (client r1)
                = sent (client r)
                  ++ [(chat_uid (getOrCreateChat SYSTEM_INSTRUCTION r sid).1,
                       messageContent input1 att1)]).
  { unfold r1. rewrite call_agent_async_runner. simpl.
    by rewrite (proj2 (getOrCreateChat_created r sid)). }
  exists (chat_uid (getOrCreateChat SYSTEM_INSTRUCTION r sid).1),
         (chat_uid (getOrCreateChat SYSTEM_INSTRUCTION r1 sid').1).
  split.
  { rewrite call_agent_async_runner. simpl.
    rewrite (proj2 (getOrCreateChat_created r1 sid')), Hs1.
    by rewrite <- app_assoc. }
  split.
  - intros <-. by rewrite (getOrCreateChat_known _ _ _ _ Hr1).
  - intros Hne Heq.
    pose proof (wf_getOrCreateChat SYSTEM_INSTRUCTION r1 sid' Hwf1) as [_ Hinj].
    apply Hne.
    refine (Hinj sid _ _ sid' _ _ Heq).
    + by rewrite getOrCreateChat_lookup_ne.
    + apply getOrCreateChat_lookup.
Qed.

(** X9.  What the generator leaves in the service does not depend on the
    provider's reply.  In particular, when the send throws, nothing is
    yielded and the generator fails, but the session's handle stays
    cached: the next call for the session gets this handle and creates
    none, and the message that failed is in the log of that chat. *)
Theorem failed_send_keeps_the_handle (r : t) (sid userInput : string)
    (attachment : option Attachment.t) (reply : Reply) :
  (call_agent_async SYSTEM_INSTRUCTION r sid userInput attachment SendThrows).1.1
  = (call_agent_async SYSTEM_INSTRUCTION r sid userInput attachment reply).1.1 ∧
  (call_agent_async SYSTEM_INSTRUCTION r sid userInput attachment SendThrows).1.2
  = [] ∧
  (call_agent_async SYSTEM_INSTRUCTION r sid userInput attachment SendThrows).2
  = Failed ∧
  ∃ chat,
    chatSessions
      (call_agent_async SYSTEM_INSTRUCTION r sid userInput attachment
         SendThrows).1.1 !! sid = Some chat ∧
    getOrCreateChat SYSTEM_INSTRUCTION
      (call_agent_async SYSTEM_INSTRUCTION r sid userInput attachment
         SendThrows).1.1 sid
    = (chat,
       (call_agent_async SYSTEM_INSTRUCTION r sid userInput attachment
          SendThrows).1.1) ∧
    last (sent (client
                  (call_agent_async SYSTEM_INSTRUCTION r sid userInput
                     attachment SendThrows).1.1))
    = Some (chat_uid chat, messageContent userInput attachment).
Proof.
  split; [by rewrite !call_agent_async_runner|].
  split; [unfold call_agent_async; by destruct (getOrCreateChat _ r sid)|].
  split; [unfold call_agent_async; by destruct (getOrCreateChat _ r sid)|].
  rewrite call_agent_async_runner.
  exists (getOrCreateChat SYSTEM_INSTRUCTION r sid).1.
  assert (Hl : chatSessions (getOrCreateChat SYSTEM_INSTRUCTION r sid).2 !! sid
               = Some (getOrCreateChat SYSTEM_INSTRUCTION r sid).1)
    by apply getOrCreateChat_lookup.
  split; [exact Hl|]. split.
  - apply getOrCreateChat_known. exact Hl.
  - simpl. apply last_snoc.
Qed.

(** X10.  After [resetSession], the next turn of the session is sent on a
    chat that the client makes then: no earlier message was sent on it
    and no session holds it.  The disciplines of the cache and of the log
    are kept. *)
Theorem turn_after_reset_uses_a_new_chat (r : t) (sid userInput : string)
    (attachment : option Attachment.t) (reply : Reply) :
  wf r → sent_wf r →
  ∃ c,
    sent (client
            (call_agent_async SYSTEM_INSTRUCTION (resetSession r sid) sid
               userInput attachment reply).1.1)
    = sent (client r) ++ [(c, messageContent userInput attachment)] ∧
    (c ∉ chats_used r) ∧
    (∀ sid' old, chatSessions r !! sid' = Some old → chat_uid old ≠ c) ∧
    wf (call_agent_async SYSTEM_INSTRUCTION (resetSession r sid) sid
          userInput attachment reply).1.1 ∧
    sent_wf (call_agent_async SYSTEM_INSTRUCTION (resetSession r sid) sid
               userInput attachment reply).1.1.
Proof.
  intros Hwf Hsent.
  assert (Hwf' : wf (resetSession r sid)) by by apply wf_resetSession.
  assert (Hsent' : sent_wf (resetSession r sid)) by exact Hsent.
  assert (Hs : chatSessions (resetSession r sid) !! sid = None)
    by (simpl; apply lookup_delete_eq).
  exists (created (client r)). split.
  { rewrite call_agent_async_runner, (getOrCreateChat_unknown _ _ _ Hs). done. }
  split.
  { unfold chats_used. intros Hin.
    apply list_elem_of_fmap in Hin as (entry & Heq & Hentry).
    unfold sent_wf in Hsent. rewrite Forall_forall in Hsent.
    specialize (Hsent entry Hentry). simpl in Hsent. lia. }
  split.
  { intros sid' old Hold Heq.
    pose proof (wf_uid_bound _ _ _ Hwf Hold). lia. }
  split; [by apply wf_after_call|by apply sent_wf_after_call].
Qed.

End Turns.

Lemma session_turns_share_one_chat_witness :
  ∃ c1 c2,
    sent (client
            (call_agent_async "persona"
               (call_agent_async "persona" Samples.runner "s1" "a" None
                  SendThrows).1.1
               "s2" "b" None SendThrows).1.1)
    = sent (client Samples.runner)
      ++ [(c1, messageContent "a" None); (c2, messageContent "b" None)] ∧
    c1 ≠ c2.
Proof.
  destruct (session_turns_share_one_chat "persona" Samples.runner "s1" "s2"
              "a" "b" None None SendThrows SendThrows)
    as (c1 & c2 & Hsent & _ & Hne).
  - apply (bool_decide_unpack _); vm_compute; exact I.
  - exists c1, c2. split; [exact Hsent|]. apply Hne. discriminate.
Defined.

Lemma turn_after_reset_uses_a_new_chat_witness :
  ∃ c,
    sent (client
            (call_agent_async "persona" (resetSession Samples.runner "s1") "s1"
               "a" None SendThrows).1.1)
    = sent (client Samples.runner) ++ [(c, messageContent "a" None)] ∧
    (c ∉ chats_used Samples.runner) ∧
    (∀ sid' old, chatSessions Samples.runner !! sid' = Some old →
                 chat_uid old ≠ c) ∧
    wf (call_agent_async "persona" (resetSession Samples.runner "s1") "s1"
          "a" None SendThrows).1.1 ∧
    sent_wf (call_agent_async "persona" (resetSession Samples.runner "s1") "s1"
               "a" None SendThrows).1.1.
Proof.
  apply (turn_after_reset_uses_a_new_chat "persona" Samples.runner "s1" "a"
           None SendThrows).
  - apply (bool_decide_unpack _); vm_compute; exact I.
  - apply (bool_decide_unpack _); vm_compute; exact I.
Defined.

End AgentRunnerExtra.

(* ===================================================================== *)
(** * Further properties of the composer *)
(* ===================================================================== *)

Module ChatInputExtra.
Import ChatInput ChatInputFacts.

Section Composer.

Variable trim : string → string.

Lemma truthy_true (s : string) : truthy s = true ↔ s ≠ "".
Proof.
  unfold truthy. rewrite negb_true_iff. split.
  - by intros ?%String.eqb_neq.
  - by intros ?%String.eqb_neq.
Qed.

(** When [handleSubmit] calls [onSend]. *)
Lemma handleSubmit_fires (disabled : bool) (st : State) :
  (truthy (trim (input st)) || bool_decide (is_Some (attachment st)))
  && negb disabled = true
  ↔ (trim (input st) ≠ "" ∨ is_Some (attachment st)) ∧ disabled = false.
Proof.
  rewrite andb_true_iff, orb_true_iff, truthy_true, bool_decide_eq_true,
    negb_true_iff. done.
Qed.

(** X14.  [handleSubmit] calls [onSend] if and only if the composer is
    enabled and holds something to send: a text that is not blank once
    trimmed, or a staged attachment.  What it sends is the trimmed text
    and the staged attachment, and it then empties the text and the
    attachment; the value of the file-selection control and the notices
    are left as they are.  When it does not send, nothing changes. *)
Theorem handleSubmit_sends_what_the_composer_holds
    (disabled : bool) (st : State) :
  (is_Some (handleSubmit trim disabled st).2
   ↔ (trim (input st) ≠ "" ∨ is_Some (attachment st)) ∧ disabled = false) ∧
  (∀ call, (handleSubmit trim disabled st).2 = Some call →
     call = (trim (input st), attachment st) ∧
     input (handleSubmit trim disabled st).1 = "" ∧
     attachment (handleSubmit trim disabled st).1 = None ∧
     fileInputRef (handleSubmit trim disabled st).1 = fileInputRef st ∧
     alerts (handleSubmit trim disabled st).1 = alerts st) ∧
  ((handleSubmit trim disabled st).2 = None →
   (handleSubmit trim disabled st).1 = st).
Proof.
  pose proof (handleSubmit_fires disabled st) as Hf.
  unfold handleSubmit.
  destruct ((truthy (trim (input st)) || bool_decide (is_Some (attachment st)))
            && negb disabled) eqn:Hc; simpl.
  - split; [|split].
    + split; [intros _; by apply Hf|by eexists].
    + intros call Hcall. by inversion Hcall.
    + done.
  - split; [|split].
    + split; [by intros [? ?]|]. intros H. apply Hf in H. done.
    + done.
    + done.
Qed.

(** X15.  A submission that sent something leaves a composer that sends
    nothing: submitting again at once, without typing or attaching, calls
    [onSend] no second time.  (The built-in [trim] maps the empty string
    to itself.) *)
Theorem second_submit_sends_nothing (d1 d2 : bool) (st : State) :
  trim "" = "" →
  is_Some (handleSubmit trim d1 st).2 →
  handleSubmit trim d2 (handleSubmit trim d1 st).1
  = ((handleSubmit trim d1 st).1, None).
Proof.
  intros Htrim [call Hsent]. unfold handleSubmit in Hsent |- *.
  destruct ((truthy (trim (input st)) || bool_decide (is_Some (attachment st)))
            && negb d1) eqn:Hc; [|done].
  cbn [fst input attachment]. rewrite Htrim.
  assert (Hnone : bool_decide (is_Some (@None Attachment.t)) = false).
  { apply bool_decide_eq_false. by intros [? ?]. }
  by rewrite Hnone.
Qed.

End Composer.

Lemma handleSubmit_sends_what_the_composer_holds_witness :
  ("ping", None)
  = (Samples.trim (input Samples.padded_composer),
     attachment Samples.padded_composer) ∧
  input (handleSubmit Samples.trim false Samples.padded_composer).1 = "" ∧
  attachment (handleSubmit Samples.trim false Samples.padded_composer).1 = None ∧
  fileInputRef (handleSubmit Samples.trim false Samples.padded_composer).1
  = fileInputRef Samples.padded_composer ∧
  alerts (handleSubmit Samples.trim false Samples.padded_composer).1
  = alerts Samples.padded_composer.
Proof.
  apply (proj1 (proj2 (handleSubmit_sends_what_the_composer_holds
                         Samples.trim false Samples.padded_composer))
           ("ping", None)).
  reflexivity.
Defined.

Lemma second_submit_sends_nothing_witness :
  handleSubmit Samples.trim false
    (handleSubmit Samples.trim false Samples.padded_composer).1
  = ((handleSubmit Samples.trim false Samples.padded_composer).1, None).
Proof.
  apply (second_submit_sends_nothing Samples.trim false false
           Samples.padded_composer).
  - reflexivity.
  - vm_compute. by eexists.
Defined.

(** *** From the selected file to the message *)

Lemma occurs_app (c : ascii) (s1 s2 : string) :
  occurs c (s1 +:+ s2) = occurs c s1 || occurs c s2.
Proof.
  induction s1 as [|a s1 IH]; [done|].
  rewrite StringFacts.app_cons; simpl. by rewrite IH, orb_assoc.
Qed.

Lemma data_url_prefix_has_no_comma (mime : string) :
  occurs "," mime = false → occurs "," ("data:" +:+ mime +:+ ";base64") = false.
Proof. intros Hm. by rewrite !occurs_app, Hm. Qed.

Section Pipeline.

Variable trim : string → string.

(** X16.  The whole way of an attachment.  A first selected file within
    the size limit is handed to the reader; when the reader ends with the
    data URL of a payload, the payload alone is staged, without the
    [data:...;base64,] prefix, under the media type the file declares;
    the next submission of an enabled composer sends this attachment with
    the trimmed text and leaves the composer empty. *)
Theorem attached_file_is_staged_and_sent
    (st : State) (file : File) (others : list File) (mime payload : string) :
  (size file ≤ MAX_FILE_SIZE_BYTES)%N →
  occurs "," mime = false →
  occurs "," payload = false →
  ∃ st1,
    handleFileSelect (Some (file :: others)) st = (st, Some file) ∧
    onloadend file (Some (data_url mime payload)) st = Some st1 ∧
    attachment st1
    = Some {| Attachment.base64 := Some payload;
              Attachment.mimeType := type file |} ∧
    input st1 = input st ∧
    (handleSubmit trim false st1).2
    = Some (trim (input st),
            Some {| Attachment.base64 := Some payload;
                    Attachment.mimeType := type file |}) ∧
    attachment (handleSubmit trim false st1).1 = None ∧
    input (handleSubmit trim false st1).1 = "".
Proof.
  intros Hsize Hmime Hpayload.
  eexists. split; [by apply handleFileSelect_accepts|]. split.
  { unfold data_url.
    apply onloadend_stages; [by apply data_url_prefix_has_no_comma|done]. }
  split; [done|]. split; [done|].
  unfold handleSubmit; simpl.
  by rewrite orb_true_r.
Qed.

End Pipeline.

Lemma attached_file_is_staged_and_sent_witness :
  ∃ st1,
    handleFileSelect (Some [Samples.file_at_limit]) Samples.padded_composer
    = (Samples.padded_composer, Some Samples.file_at_limit) ∧
    onloadend Samples.file_at_limit (Some (data_url "image/png" "QUJD"))
      Samples.padded_composer = Some st1 ∧
    attachment st1
    = Some {| Attachment.base64 := Some "QUJD";
              Attachment.mimeType := type Samples.file_at_limit |} ∧
    input st1 = input Samples.padded_composer ∧
    (handleSubmit Samples.trim false st1).2
    = Some (Samples.trim (input Samples.padded_composer),
            Some {| Attachment.base64 := Some "QUJD";
                    Attachment.mimeType := type Samples.file_at_limit |}) ∧
    attachment (handleSubmit Samples.trim false st1).1 = None ∧
    input (handleSubmit Samples.trim false st1).1 = "".
Proof.
  apply (attached_file_is_staged_and_sent Samples.trim Samples.padded_composer
           Samples.file_at_limit [] "image/png" "QUJD").
  - vm_compute. discriminate.
  - reflexivity.
  - reflexivity.
Defined.

(** X17.  What [onloadend] does with other results of the reader.  With
    no result ([null]) it throws and stages nothing.  With a result that
    holds no comma it stages an attachment without payload.  With a
    result that holds a second comma it stages what lies between the
    first two commas only. *)
Theorem onloadend_on_other_results (file : File) (st : State) :
  onloadend file None st = None ∧
  (∀ s, occurs "," s = false →
     ∃ st1, onloadend file (Some s) st = Some st1 ∧
            attachment st1
            = Some {| Attachment.base64 := None;
                      Attachment.mimeType := type file |}) ∧
  (∀ p d rest, occurs "," p = false → occurs "," d = false →
     ∃ st1,
       onloadend file (Some (p +:+ String "," (d +:+ String "," rest))) st
       = Some st1 ∧
       attachment st1
       = Some {| Attachment.base64 := Some d;
                 Attachment.mimeType := type file |}).
Proof.
  split; [done|]. split.
  - intros s Hs. eexists. split; [done|]. simpl.
    by rewrite (split_head _ _ Hs).
  - intros p d rest Hp Hd. eexists. split; [done|]. simpl.
    by rewrite (split_cons _ _ _ Hp), (split_cons _ _ _ Hd).
Qed.

Lemma onloadend_on_other_results_witness :
  (∃ st1, onloadend Samples.file_at_limit (Some "QUJD") Samples.composer
          = Some st1 ∧
          attachment st1
          = Some {| Attachment.base64 := None;
                    Attachment.mimeType := type Samples.file_at_limit |}) ∧
  (∃ st1,
     onloadend Samples.file_at_limit
       (Some ("data:image/png;base64" +:+ String "," ("QU" +:+ String "," "JD")))
       Samples.composer = Some st1 ∧
     attachment st1
     = Some {| Attachment.base64 := Some "QU";
               Attachment.mimeType := type Samples.file_at_limit |}).
Proof.
  destruct (onloadend_on_other_results Samples.file_at_limit Samples.composer)
    as (_ & Hnone & Htwo).
  split.
  - apply Hnone. reflexivity.
  - apply Htwo; reflexivity.
Defined.

(** X18.  [handleFileSelect] only screens the selection.  It never
    changes the typed text, the staged attachment or the text area; it
    raises at most one notice; a file reaches the reader only if it is
    the first of the selection and within the size limit, and then
    nothing changes at all; an empty selection changes nothing. *)
Theorem handleFileSelect_only_screens
    (files : option (list File)) (st : State) :
  input (handleFileSelect files st).1 = input st ∧
  attachment (handleFileSelect files st).1 = attachment st ∧
  textareaRef (handleFileSelect files st).1 = textareaRef st ∧
  (alerts (handleFileSelect files st).1 = alerts st
   ∨ alerts (handleFileSelect files st).1 = alerts st ++ [too_large_notice]) ∧
  (∀ file, (handleFileSelect files st).2 = Some file →
     files ≫= head = Some file ∧
     (size file ≤ MAX_FILE_SIZE_BYTES)%N ∧
     (handleFileSelect files st).1 = st) ∧
  (files ≫= head = None → handleFileSelect files st = (st, None)).
Proof.
  unfold handleFileSelect.
  destruct (files ≫= head) as [file|] eqn:Hhead; simpl.
  - destruct (MAX_FILE_SIZE_BYTES <? size file)%N eqn:Hlt; simpl.
    + do 3 (split; [done|]). split; [by right|]. split; [done|done].
    + apply N.ltb_ge in Hlt.
      do 3 (split; [done|]). split; [by left|]. split; [|done].
      intros f Hf. by inversion Hf; subst f.
  - do 3 (split; [done|]). split; [by left|]. split; done.
Qed.

Lemma handleFileSelect_only_screens_witness :
  Some [Samples.file_at_limit; Samples.file_over_limit] ≫= head
  = Some Samples.file_at_limit ∧
  (size Samples.file_at_limit ≤ MAX_FILE_SIZE_BYTES)%N ∧
  (handleFileSelect (Some [Samples.file_at_limit; Samples.file_over_limit])
     Samples.composer).1 = Samples.composer.
Proof.
  apply (handleFileSelect_only_screens
           (Some [Samples.file_at_limit; Samples.file_over_limit])
           Samples.composer).
  reflexivity.
Defined.

(** X19.  [removeAttachment] takes the staged attachment away and empties
    the file-selection control, without touching the typed text or the
    notices; doing it twice is doing it once; and a composer whose text
    is blank sends nothing after it. *)
Theorem removeAttachment_unstages (st : State) :
  attachment (removeAttachment st) = None ∧
  input (removeAttachment st) = input st ∧
  alerts (removeAttachment st) = alerts st ∧
  (∀ v, fileInputRef st = Some v → fileInputRef (removeAttachment st) = Some "") ∧
  removeAttachment (removeAttachment st) = removeAttachment st ∧
  (∀ (trim : string → string) (disabled : bool),
     trim (input st) = "" →
     handleSubmit trim disabled (removeAttachment st) = (removeAttachment st, None)).
Proof.
  do 3 (split; [done|]). split; [by intros v Hv; simpl; rewrite Hv|]. split.
  - unfold removeAttachment; simpl. by destruct (fileInputRef st).
  - intros trim disabled Hblank. unfold handleSubmit; simpl.
    by rewrite Hblank.
Qed.

Lemma removeAttachment_unstages_witness :
  fileInputRef (removeAttachment Samples.composer_with_attachment) = Some "" ∧
  handleSubmit Samples.trim false
    (removeAttachment Samples.composer_with_attachment)
  = (removeAttachment Samples.composer_with_attachment, None).
Proof.
  destruct (removeAttachment_unstages Samples.composer_with_attachment)
    as (_ & _ & _ & Hctl & _ & Hblank).
  split.
  - apply (Hctl "C:\fakepath\scan.png"). reflexivity.
  - apply Hblank. reflexivity.
Defined.

(** On the sample composer the text is sent without its blanks. *)
Example padded_text_is_sent_trimmed :
  (handleSubmit Samples.trim false Samples.padded_composer).2
  = Some ("ping", None).
Proof. reflexivity. Qed.

End ChatInputExtra.

(* ===================================================================== *)
(** * Further properties of the conversation controller *)
(* ===================================================================== *)

Module AppExtra.
Import Provider App AppFacts.

(** X20.  The updater of the streaming loop touches the last message of
    the transcript only.  After a message of the user it appends the
    assistant message; after any other message it puts the assistant
    message in its place; it keeps every message before, the session
    identifier and the status.  On an empty transcript it throws. *)
Theorem splice_touches_only_the_last_message
    (current : Message.t) (prev : SessionState.t) :
  (SessionState.messages prev = [] → splice current prev = None) ∧
  (∀ pre m, SessionState.messages prev = pre ++ [m] →
     ∃ next,
       splice current prev = Some next ∧
       SessionState.sessionId next = SessionState.sessionId prev ∧
       SessionState.status next = SessionState.status prev ∧
       (Message.role m = USER →
        SessionState.messages next = pre ++ [m; current]) ∧
       (Message.role m ≠ USER →
        SessionState.messages next = pre ++ [current])).
Proof.
  split.
  - intros Hnil. unfold splice. by rewrite Hnil.
  - intros pre m Hmsgs.
    destruct (decide (Message.role m = USER)) as [Hu|Hu].
    + eexists. split.
      { apply (splice_after_user _ _ m); [|done].
        rewrite Hmsgs. apply last_snoc. }
      simpl. split; [done|]. split; [done|]. split; [|done].
      intros _. by rewrite Hmsgs, <- app_assoc.
    + eexists. split; [by apply (splice_after_other _ _ pre m)|].
      simpl. split; [done|]. split; [done|]. split; [done|done].
Qed.

Lemma splice_touches_only_the_last_message_witness :
  ∃ next,
    splice (Samples.message ASSISTANT "Hel")
      (sessionState Samples.busy_world) = Some next ∧
    SessionState.sessionId next
    = SessionState.sessionId (sessionState Samples.busy_world) ∧
    SessionState.status next
    = SessionState.status (sessionState Samples.busy_world) ∧
    (Message.role (Samples.message USER "ping") = USER →
     SessionState.messages next
     = [Samples.message ASSISTANT "greeting"]
       ++ [Samples.message USER "ping"; Samples.message ASSISTANT "Hel"]) ∧
    (Message.role (Samples.message USER "ping") ≠ USER →
     SessionState.messages next
     = [Samples.message ASSISTANT "greeting"]
       ++ [Samples.message ASSISTANT "Hel"]).
Proof.
  apply (proj2 (splice_touches_only_the_last_message
                  (Samples.message ASSISTANT "Hel")
                  (sessionState Samples.busy_world))
           [Samples.message ASSISTANT "greeting"]
           (Samples.message USER "ping")).
  reflexivity.
Defined.

(** *** Whole turns *)

Section Turns.

Variable SYSTEM_INSTRUCTION : string.

(** The citation field of the last yielded object. *)
Lemma last_yield_citations (chunks : list GenerateContentResponse)
    (resp : AgentResponse.t) :
  last (AgentRunner.yields AgentRunner.acc0 chunks) = Some resp →
  AgentResponse.groundingChunks resp
  = match fold_left AgentRunner.push_new (AgentRunner.arrived chunks) [] with
    | [] => None
    | cites => Some cites
    end.
Proof.
  intros Hlast.
  assert (Hne : chunks ≠ []) by (intros ->; done).
  rewrite (AgentRunnerFacts.yields_last _ _ Hne) in Hlast.
  inversion Hlast as [Heq].
  rewrite AgentRunnerFacts.snapshot_groundingChunks,
    AgentRunnerFacts.groundingChunks_fold. simpl.
  by destruct (fold_left AgentRunner.push_new _ _).
Qed.

(** X21.  A turn whose stream delivers at least one chunk and completes
    ends with the same two messages at the end of the transcript and of
    the session in the store: the user's message and one assistant
    message.  The assistant message has the whole text delivered and the
    citations collected over the whole stream, and the status is "idle"
    again. *)
Theorem completed_turn_is_stored_as_displayed
    (fresh : Fresh) (chunks : list GenerateContentResponse)
    (content : string) (attachment : option Attachment.t) (w : World) :
  SessionState.sessionId (sessionState w) ≠ "" →
  SessionService.wf (sessionService w) →
  chunks ≠ [] →
  ∃ w' answer,
    handleSendMessage SYSTEM_INSTRUCTION fresh (Streams chunks Completed)
      content attachment w = Some w' ∧
    SessionState.messages (sessionState w')
    = SessionState.messages (sessionState w)
      ++ [userMsg fresh content attachment; answer] ∧
    SessionService.history (sessionService w')
      (SessionState.sessionId (sessionState w))
    = SessionService.history (sessionService w)
        (SessionState.sessionId (sessionState w))
      ++ [userMsg fresh content attachment; answer] ∧
    Message.id answer = assistantMsgId fresh ∧
    Message.role answer = ASSISTANT ∧
    Message.content answer
    = AgentRunner.joined (AgentRunner.chunk_text <$> chunks) ∧
    Message.groundingChunks answer
    = match fold_left AgentRunner.push_new (AgentRunner.arrived chunks) [] with
      | [] => None
      | cites => Some cites
      end ∧
    SessionState.status (sessionState w') = idle.
Proof.
  intros Hsid Hwf Hne.
  destruct (handleSendMessage_spec SYSTEM_INSTRUCTION fresh
              (Streams chunks Completed) content attachment w Hsid)
    as (w' & new & Hrun & _ & Hm & Hst & _ & _ & Hsvc & _).
  simpl in Hm, Hst, Hsvc.
  set (stream := AgentRunner.yields AgentRunner.acc0 chunks) in *.
  assert (Hstream : stream ≠ []) by (intros H; by apply yields_nil in H).
  exists w', (assistant_after fresh stream).
  split; [done|]. split.
  { rewrite Hm. unfold shown_assistant. destruct stream; [done|].
    by rewrite app_nil_r. }
  split.
  { rewrite Hsvc. by apply history_after_turn. }
  unfold assistant_after.
  destruct (last stream) as [resp|] eqn:Hlast.
  - split; [done|]. split; [done|]. split; [by apply last_yield_text|].
    split; [by apply last_yield_citations|done].
  - apply last_is_Some in Hstream. rewrite Hlast in Hstream.
    by destruct Hstream.
Qed.

(** X22.  A turn whose stream completes without a single chunk shows no
    assistant message, but stores one: the session in the store ends with
    the user's message and an assistant message with an empty text, while
    the transcript ends with the user's message.  The status is "idle". *)
Theorem empty_stream_stores_an_empty_answer
    (fresh : Fresh) (content : string) (attachment : option Attachment.t)
    (w : World) :
  SessionState.sessionId (sessionState w) ≠ "" →
  SessionService.wf (sessionService w) →
  ∃ w',
    handleSendMessage SYSTEM_INSTRUCTION fresh (Streams [] Completed)
      content attachment w = Some w' ∧
    SessionState.messages (sessionState w')
    = SessionState.messages (sessionState w)
      ++ [userMsg fresh content attachment] ∧
    SessionService.history (sessionService w')
      (SessionState.sessionId (sessionState w))
    = SessionService.history (sessionService w)
        (SessionState.sessionId (sessionState w))
      ++ [userMsg fresh content attachment; assistantMsg fresh] ∧
    Message.content (assistantMsg fresh) = "" ∧
    SessionState.status (sessionState w') = idle.
Proof.
  intros Hsid Hwf.
  destruct (handleSendMessage_spec SYSTEM_INSTRUCTION fresh
              (Streams [] Completed) content attachment w Hsid)
    as (w' & new & Hrun & _ & Hm & Hst & _ & _ & Hsvc & _).
  simpl in Hm, Hst, Hsvc.
  exists w'. split; [done|]. split; [done|]. split; [|done].
  rewrite Hsvc. by apply history_after_turn.
Qed.

(** X23.  A turn only appends, whatever the provider does: the transcript
    before the turn is the beginning of the transcript after it, what the
    session held in the store is the beginning of what it holds after,
    and the session identifier is the same.  At most three messages are
    added to the transcript. *)
Theorem turn_only_appends
    (fresh : Fresh) (reply : Reply) (content : string)
    (attachment : option Attachment.t) (w : World) :
  SessionService.wf (sessionService w) →
  ∃ w',
    handleSendMessage SYSTEM_INSTRUCTION fresh reply content attachment w = Some w' ∧
    SessionState.sessionId (sessionState w')
    = SessionState.sessionId (sessionState w) ∧
    SessionState.messages (sessionState w)
      `prefix_of` SessionState.messages (sessionState w') ∧
    (length (SessionState.messages (sessionState w'))
     ≤ length (SessionState.messages (sessionState w)) + 3)%nat ∧
    SessionService.history (sessionService w)
      (SessionState.sessionId (sessionState w))
      `prefix_of` SessionService.history (sessionService w')
                    (SessionState.sessionId (sessionState w)).
Proof.
  intros Hwf.
  destruct (decide (SessionState.sessionId (sessionState w) = "")) as [Hsid|Hsid].
  { exists w. split; [by apply handleSendMessage_without_session|].
    split; [done|]. split; [done|]. split; [lia|done]. }
  destruct (handleSendMessage_spec SYSTEM_INSTRUCTION fresh reply content
              attachment w Hsid)
    as (w' & new & Hrun & Hid & Hm & _ & _ & _ & Hsvc & _).
  exists w'. split; [done|]. split; [done|]. split.
  { rewrite Hm. by eexists. }
  split.
  { rewrite Hm, !length_app. simpl.
    assert (length (shown_assistant fresh
                      (AgentRunner.yields AgentRunner.acc0
                         (AgentRunner.delivered reply))) ≤ 1)%nat
      by (unfold shown_assistant; destruct (AgentRunner.yields _ _); simpl; lia).
    destruct (AgentRunner.ending reply); simpl; lia. }
  rewrite Hsvc, history_after_turn by done. by eexists.
Qed.



(** X26.  [handleSendMessage] never throws: the [TypeError] of the
    updater cannot happen in a turn, since the user's message is in the
    transcript before the first chunk.  A turn also keeps the disciplines
    of the store, of the handle cache and of the send log. *)
Theorem turn_never_throws
    (fresh : Fresh) (reply : Reply) (content : string)
    (attachment : option Attachment.t) (w : World) :
  is_Some (handleSendMessage SYSTEM_INSTRUCTION fresh reply content attachment w) ∧
  (SessionService.wf (sessionService w) →
   AgentRunner.wf (agentRunner w) →
   AgentRunner.sent_wf (agentRunner w) →
   ∀ w',
     handleSendMessage SYSTEM_INSTRUCTION fresh reply content attachment w = Some w' →
     SessionService.wf (sessionService w') ∧
     AgentRunner.wf (agentRunner w') ∧
     AgentRunner.sent_wf (agentRunner w')).
Proof.
  destruct (decide (SessionState.sessionId (sessionState w) = "")) as [Hsid|Hsid].
  { rewrite (handleSendMessage_without_session _ _ _ _ _ _ Hsid).
    split; [by eexists|]. intros ? ? ? w' Hw'. by inversion Hw'; subst w'. }
  destruct (handleSendMessage_spec SYSTEM_INSTRUCTION fresh reply content
              attachment w Hsid)
    as (w' & new & Hrun & _ & _ & _ & _ & _ & Hsvc & Hag).
  rewrite Hrun. split; [by eexists|].
  intros Hwf Hwfr Hsent w'' Hw''. inversion Hw''; subst w''.
  rewrite Hsvc, Hag. split; [|split].
  - auto using SessionServiceFacts.wf_addMessage.
  - by apply AgentRunnerExtra.wf_after_call.
  - by apply AgentRunnerExtra.sent_wf_after_call.
Qed.

End Turns.

Lemma completed_turn_is_stored_as_displayed_witness :
  ∃ w' answer,
    handleSendMessage "persona" Samples.fresh
      (Streams Samples.cited_stream Completed) "ping" None Samples.world
    = Some w' ∧
    SessionState.messages (sessionState w')
    = SessionState.messages (sessionState Samples.world)
      ++ [userMsg Samples.fresh "ping" None; answer] ∧
    SessionService.history (sessionService w')
      (SessionState.sessionId (sessionState Samples.world))
    = SessionService.history (sessionService Samples.world)
        (SessionState.sessionId (sessionState Samples.world))
      ++ [userMsg Samples.fresh "ping" None; answer] ∧
    Message.id answer = assistantMsgId Samples.fresh ∧
    Message.role answer = ASSISTANT ∧
    Message.content answer
    = AgentRunner.joined (AgentRunner.chunk_text <$> Samples.cited_stream) ∧
    Message.groundingChunks answer
    = match fold_left AgentRunner.push_new
              (AgentRunner.arrived Samples.cited_stream) [] with
      | [] => None
      | cites => Some cites
      end ∧
    SessionState.status (sessionState w') = idle.
Proof.
  apply (completed_turn_is_stored_as_displayed "persona" Samples.fresh
           Samples.cited_stream "ping" None Samples.world).
  - simpl. discriminate.
  - apply (bool_decide_unpack _); vm_compute; exact I.
  - discriminate.
Defined.

Lemma empty_stream_stores_an_empty_answer_witness :
  ∃ w',
    handleSendMessage "persona" Samples.fresh (Streams [] Completed)
      "ping" None Samples.world = Some w' ∧
    SessionState.messages (sessionState w')
    = SessionState.messages (sessionState Samples.world)
      ++ [userMsg Samples.fresh "ping" None] ∧
    SessionService.history (sessionService w')
      (SessionState.sessionId (sessionState Samples.world))
    = SessionService.history (sessionService Samples.world)
        (SessionState.sessionId (sessionState Samples.world))
      ++ [userMsg Samples.fresh "ping" None; assistantMsg Samples.fresh] ∧
    Message.content (assistantMsg Samples.fresh) = "" ∧
    SessionState.status (sessionState w') = idle.
Proof.
  apply (empty_stream_stores_an_empty_answer "persona" Samples.fresh "ping"
           None Samples.world).
  - simpl. discriminate.
  - apply (bool_decide_unpack _); vm_compute; exact I.
Defined.

Lemma turn_only_appends_witness :
  ∃ w',
    handleSendMessage "persona" Samples.fresh
      (Streams Samples.cited_stream Failed) "ping" None Samples.world
    = Some w' ∧
    SessionState.sessionId (sessionState w')
    = SessionState.sessionId (sessionState Samples.world) ∧
    SessionState.messages (sessionState Samples.world)
      `prefix_of` SessionState.messages (sessionState w') ∧
    (length (SessionState.messages (sessionState w'))
     ≤ length (SessionState.messages (sessionState Samples.world)) + 3)%nat ∧
    SessionService.history (sessionService Samples.world)
      (SessionState.sessionId (sessionState Samples.world))
      `prefix_of` SessionService.history (sessionService w')
                    (SessionState.sessionId (sessionState Samples.world)).
Proof.
  apply (turn_only_appends "persona" Samples.fresh
           (Streams Samples.cited_stream Failed) "ping" None Samples.world).
  apply (bool_decide_unpack _); vm_compute; exact I.
Defined.



Lemma turn_never_throws_witness :
  is_Some (handleSendMessage "persona" Samples.fresh
             (Streams Samples.cited_stream Failed) "ping" None Samples.world) ∧
  ∃ w',
    handleSendMessage "persona" Samples.fresh
      (Streams Samples.cited_stream Failed) "ping" None Samples.world
    = Some w' ∧
    SessionService.wf (sessionService w') ∧
    AgentRunner.wf (agentRunner w') ∧
    AgentRunner.sent_wf (agentRunner w').
Proof.
  destruct (turn_never_throws "persona" Samples.fresh
              (Streams Samples.cited_stream Failed) "ping" None Samples.world)
    as [[w' Hrun] Hkeeps].
  split; [by exists w'|]. exists w'. split; [exact Hrun|].
  apply Hkeeps.
  - apply (bool_decide_unpack _); vm_compute; exact I.
  - apply (bool_decide_unpack _); vm_compute; exact I.
  - apply (bool_decide_unpack _); vm_compute; exact I.
  - exact Hrun.
Defined.

(** *** Starting a session and starting over *)

Lemma initNewSession_eq (fresh : FreshSession) (w : World) :
  initNewSession fresh w
  = {| sessionState :=
         {| SessionState.sessionId := newSessionId fresh;
            SessionState.messages := [greeting fresh];
            SessionState.status := idle |};
       rendered :=
         rendered w ++
         [{| SessionState.sessionId := newSessionId fresh;
             SessionState.messages := [greeting fresh];
             SessionState.status := idle |}];
       sessionService :=
         SessionService.addMessage
           (SessionService.createSession (newSessionId fresh) (sessionService w)).2
           (newSessionId fresh) (greeting fresh);
       agentRunner := agentRunner w |}.
Proof. reflexivity. Qed.

(** X27.  [initNewSession] makes the session drawn the current one: the
    transcript is the greeting alone, whatever it was before, the status
    is "idle", and the store holds the greeting alone for this session.
    The other sessions of the store and the agent client are not
    touched. *)
Theorem initNewSession_starts_with_the_greeting
    (fresh : FreshSession) (w : World) :
  SessionService.wf (sessionService w) →
  sessionState (initNewSession fresh w)
  = {| SessionState.sessionId := newSessionId fresh;
       SessionState.messages := [greeting fresh];
       SessionState.status := idle |} ∧
  SessionService.history (sessionService (initNewSession fresh w))
    (newSessionId fresh) = [greeting fresh] ∧
  (∀ sid', newSessionId fresh ≠ sid' →
     SessionService.history (sessionService (initNewSession fresh w)) sid'
     = SessionService.history (sessionService w) sid') ∧
  agentRunner (initNewSession fresh w) = agentRunner w ∧
  SessionService.wf (sessionService (initNewSession fresh w)).
Proof.
  intros Hwf. rewrite initNewSession_eq.
  cbn [sessionState sessionService agentRunner].
  pose proof (SessionServiceFacts.wf_createSession (newSessionId fresh) _ Hwf)
    as Hwf1.
  split; [done|]. split.
  { rewrite SessionServiceFacts.history_addMessage_eq by done.
    by rewrite SessionServiceExtra.history_createSession_eq. }
  split.
  { intros sid' Hne.
    rewrite SessionServiceFacts.history_addMessage_ne by done.
    by apply SessionServiceFacts.history_createSession_ne. }
  split; [done|]. by apply SessionServiceFacts.wf_addMessage.
Qed.

Lemma initNewSession_starts_with_the_greeting_witness :
  sessionState (initNewSession Samples.fresh_session mount)
  = {| SessionState.sessionId := newSessionId Samples.fresh_session;
       SessionState.messages := [greeting Samples.fresh_session];
       SessionState.status := idle |} ∧
  SessionService.history
    (sessionService (initNewSession Samples.fresh_session mount))
    (newSessionId Samples.fresh_session) = [greeting Samples.fresh_session] ∧
  (∀ sid', newSessionId Samples.fresh_session ≠ sid' →
     SessionService.history
       (sessionService (initNewSession Samples.fresh_session mount)) sid'
     = SessionService.history (sessionService mount) sid') ∧
  agentRunner (initNewSession Samples.fresh_session mount) = agentRunner mount ∧
  SessionService.wf (sessionService (initNewSession Samples.fresh_session mount)).
Proof.
  apply (initNewSession_starts_with_the_greeting Samples.fresh_session mount).
  apply (bool_decide_unpack _); vm_compute; exact I.
Defined.

Lemma handleWipeSession_eq (fresh : FreshSession) (w : World) :
  SessionState.sessionId (sessionState w) ≠ "" →
  handleWipeSession fresh w
  = initNewSession fresh
      {| sessionState := sessionState w;
         rendered := rendered w;
         sessionService :=
           SessionService.clearSession (sessionService w)
             (SessionState.sessionId (sessionState w));
         agentRunner :=
           AgentRunner.resetSession (agentRunner w)
             (SessionState.sessionId (sessionState w)) |}.
Proof.
  intros Hsid. unfold handleWipeSession.
  by rewrite (proj2 (String.eqb_neq _ _) Hsid).
Qed.

(** X28.  [handleWipeSession] does nothing while there is no session.
    With a session, it starts over: the transcript is the greeting alone
    under the new identifier and the status is "idle"; the store holds
    the greeting alone for the new session and, if the new identifier
    differs from the old one, nothing at all for the old one; no handle
    is cached for the old session; no chat is created and nothing is
    sent; every other session keeps its messages and its handle. *)
Theorem handleWipeSession_starts_over (fresh : FreshSession) (w : World) :
  SessionService.wf (sessionService w) →
  (SessionState.sessionId (sessionState w) = "" →
   handleWipeSession fresh w = w) ∧
  (SessionState.sessionId (sessionState w) ≠ "" →
   sessionState (handleWipeSession fresh w)
   = {| SessionState.sessionId := newSessionId fresh;
        SessionState.messages := [greeting fresh];
        SessionState.status := idle |} ∧
   SessionService.history (sessionService (handleWipeSession fresh w))
     (newSessionId fresh) = [greeting fresh] ∧
   AgentRunner.chatSessions (agentRunner (handleWipeSession fresh w))
     !! SessionState.sessionId (sessionState w) = None ∧
   AgentRunner.client (agentRunner (handleWipeSession fresh w))
   = AgentRunner.client (agentRunner w) ∧
   (newSessionId fresh ≠ SessionState.sessionId (sessionState w) →
    SessionService.history (sessionService (handleWipeSession fresh w))
      (SessionState.sessionId (sessionState w)) = []) ∧
   (∀ sid', sid' ≠ SessionState.sessionId (sessionState w) →
            sid' ≠ newSessionId fresh →
      SessionService.history (sessionService (handleWipeSession fresh w)) sid'
      = SessionService.history (sessionService w) sid' ∧
      AgentRunner.chatSessions (agentRunner (handleWipeSession fresh w)) !! sid'
      = AgentRunner.chatSessions (agentRunner w) !! sid')).
Proof.
  intros Hwf. split.
  { intros Hsid. unfold handleWipeSession. by rewrite Hsid. }
  intros Hsid. rewrite (handleWipeSession_eq _ _ Hsid).
  set (old := SessionState.sessionId (sessionState w)).
  match goal with |- context [initNewSession fresh ?w0] => set (w1 := w0) end.
  assert (Hwf1 : SessionService.wf (sessionService w1))
    by (by apply SessionServiceFacts.wf_clearSession).
  pose proof (SessionServiceFacts.wf_createSession (newSessionId fresh) _ Hwf1)
    as Hwf2.
  rewrite initNewSession_eq. cbn [sessionState sessionService agentRunner].
  split; [done|]. split.
  { rewrite SessionServiceFacts.history_addMessage_eq by done.
    by rewrite SessionServiceExtra.history_createSession_eq. }
  subst w1. cbn [sessionService agentRunner].
  split; [apply lookup_delete_eq|]. split; [done|]. split.
  - intros Hne.
    rewrite SessionServiceFacts.history_addMessage_ne by done.
    rewrite SessionServiceFacts.history_createSession_ne by done.
    apply SessionServiceFacts.history_clearSession_eq.
  - intros sid' Hold Hfresh. split.
    + rewrite SessionServiceFacts.history_addMessage_ne by done.
      rewrite SessionServiceFacts.history_createSession_ne by done.
      by apply SessionServiceFacts.history_clearSession_ne.
    + simpl. by rewrite lookup_delete_ne.
Qed.

Lemma handleWipeSession_starts_over_witness :
  sessionState (handleWipeSession Samples.fresh_session Samples.world)
  = {| SessionState.sessionId := newSessionId Samples.fresh_session;
       SessionState.messages := [greeting Samples.fresh_session];
       SessionState.status := idle |} ∧
  SessionService.history
    (sessionService (handleWipeSession Samples.fresh_session Samples.world))
    (newSessionId Samples.fresh_session) = [greeting Samples.fresh_session] ∧
  SessionService.history
    (sessionService (handleWipeSession Samples.fresh_session Samples.world))
    (SessionState.sessionId (sessionState Samples.world)) = [].
Proof.
  assert (Hwf : SessionService.wf (sessionService Samples.world))
    by (apply (bool_decide_unpack _); vm_compute; exact I).
  destruct (handleWipeSession_starts_over Samples.fresh_session Samples.world Hwf)
    as [_ Hwipe].
  destruct Hwipe as (Hst & Hnew & _ & _ & Hold & _).
  { simpl. discriminate. }
  split; [exact Hst|]. split; [exact Hnew|]. apply Hold. discriminate.
Defined.



End AppExtra.
